(** * Corkboard Pro: the real-time collaboration layer

    A shallow embedding of the Socket.IO relay of [server.js] and of the
    [CollaborationManager] class of [public/js/collaboration.js], with the
    properties of the room registry, the broadcast relay, the client state
    machine and the last-write-wins conflict resolver. *)

From stdpp Require Import base option list gmap strings pretty.
From Stdlib Require Import ZArith Lia Ascii.

Open Scope Z_scope.

Set Warnings "-clear-no-such-hyp".

(** ** JavaScript values

    The primitive values that travel in the payloads.  Numbers are the
    integral ones (time values, pixel coordinates) and [VNaN]. *)
Module JS.

Inductive jsval : Type :=
  | VUndefined
  | VNull
  | VBool (b : bool)
  | VNum (n : Z)
  | VNaN
  | VStr (s : string).

#[global] Instance jsval_eq_dec : EqDecision jsval.
Proof. solve_decision. Defined.

(** ToBoolean: what [if (v)], [!v] and [a || b] look at. *)
Definition truthy (v : jsval) : bool :=
  match v with
  | VUndefined | VNull | VNaN => false
  | VBool b => b
  | VNum n => negb (n =? 0)
  | VStr s => negb (String.eqb s "")
  end.

(** [a || b] *)
Definition js_or (a b : jsval) : jsval := if truthy a then a else b.

(** [a === b] on primitives: NaN is not equal to itself. *)
Definition strict_eq (a b : jsval) : bool :=
  match a, b with
  | VNaN, _ | _, VNaN => false
  | _, _ => bool_decide (a = b)
  end.

(** ToString, as a template literal applies it. *)
Definition ToString (v : jsval) : string :=
  match v with
  | VUndefined => "undefined"
  | VNull => "null"
  | VBool true => "true"
  | VBool false => "false"
  | VNum n => pretty n
  | VNaN => "NaN"
  | VStr s => s
  end.

(** A flat object: field name to value.  Reading a missing property gives
    [undefined]. *)
Abbreviation obj := (gmap string jsval).

Definition get (o : obj) (k : string) : jsval := default VUndefined (o !! k).

(** Numbers as [>=] compares them: [None] is NaN, and every comparison with
    NaN is false. *)
Definition js_ge (a b : option Z) : bool :=
  match a, b with
  | Some x, Some y => y <=? x
  | _, _ => false
  end.

(** TimeClip of the Date constructor: a time value is at most 8.64e15 ms
    away from the epoch, anything else is NaN. *)
Definition TimeClip (t : Z) : option Z :=
  if Z.abs t <=? 8640000000000000 then Some t else None.

End JS.
Import JS.

(** ** Conflict resolver ([resolveConflict], collaboration.js) *)
Section Resolver.

(** [Date.parse]: the engine's date-string parser ([None] for a string
    that is not a date). *)
Variable Date_parse : string -> option Z.

(** [new Date(v).getTime()] *)
Definition Date_getTime (v : jsval) : option Z :=
  match v with
  | VStr s => Date_parse s
  | VNum n => TimeClip n
  | VBool b => TimeClip (if b then 1 else 0)
  | VNull => TimeClip 0
  | VUndefined | VNaN => None
  end.

Definition resolveConflict (localData remoteData : obj) : obj :=
  let localTimestamp :=
    Date_getTime (js_or (js_or (get localData "updated_at") (get localData "modified")) (VNum 0)) in
  let remoteTimestamp :=
    Date_getTime (js_or (js_or (get remoteData "updated_at") (get remoteData "modified")) (VNum 0)) in
  if js_ge remoteTimestamp localTimestamp then remoteData else localData.

(** The modification timestamp of an entity, in the words of the
    specification: the [updated_at] field, else the [modified] field, else
    0.  A field counts when it holds a truthy value. *)
Definition modification_timestamp (e : obj) : option Z :=
  match e !! "updated_at" with
  | Some v =>
      if truthy v then Date_getTime v
      else match e !! "modified" with
           | Some w => if truthy w then Date_getTime w else Some 0
           | None => Some 0
           end
  | None =>
      match e !! "modified" with
      | Some w => if truthy w then Date_getTime w else Some 0
      | None => Some 0
      end
  end.

End Resolver.

(** ** Room registry and broadcast relay ([server.js])

    Socket.IO keeps, for every room name, the set of the socket ids that
    joined it; a room exists while it has a member.  The registry holds the
    rooms the handlers join; the private room Socket.IO gives each socket
    under its own id is left out.  A payload is a flat object, or a single
    value where the handler emits one (a socket id, a card id). *)
Module Relay.

Inductive payload : Type :=
  | PObj (o : obj)
  | PVal (v : jsval).

(** One [emit] reaching one socket. *)
Record delivery : Type := Deliver {
  recipient : string;
  event : string;
  data : payload
}.

Abbreviation rooms := (gmap string (gset string)).

Definition membersOf (rs : rooms) (room : string) : gset string :=
  default ∅ (rs !! room).

(** [socket.join(room)] *)
Definition socket_join (sid room : string) (rs : rooms) : rooms :=
  <[room := {[sid]} ∪ membersOf rs room]> rs.

(** [socket.leave(room)]: an emptied room is dropped. *)
Definition socket_leave (sid room : string) (rs : rooms) : rooms :=
  match rs !! room with
  | None => rs
  | Some s =>
      if decide (s ∖ {[sid]} = ∅) then delete room rs
      else <[room := s ∖ {[sid]}]> rs
  end.

(** What Socket.IO does to a socket that closes, before the ['disconnect']
    handlers run: it leaves every room. *)
Definition socket_leaveAll (sid : string) (rs : rooms) : rooms :=
  omap (λ s : gset string,
          if decide (s ∖ {[sid]} = ∅) then None else Some (s ∖ {[sid]})) rs.

(** [socket.to(room).emit(ev, p)]: every member of the room but the socket. *)
Definition socket_to_emit (sid room ev : string) (p : payload) (rs : rooms)
  : list delivery :=
  (λ c, Deliver c ev p) <$> elements (membersOf rs room ∖ {[sid]}).

(** [io.to(room).emit(ev, p)]: every member of the room. *)
Definition io_to_emit (room ev : string) (p : payload) (rs : rooms)
  : list delivery :=
  (λ c, Deliver c ev p) <$> elements (membersOf rs room).

(** [`board-${boardId}`] *)
Definition board_room (boardId : jsval) : string := "board-" +:+ ToString boardId.

(** What a socket can send to the relay, and its closing. *)
Inductive socket_event : Type :=
  | JoinBoard (boardId : jsval)
  | LeaveBoard (boardId : jsval)
  | CardPositionUpdate (data : obj)
  | CursorUpdate (data : obj)
  | TypingStart (data : obj)
  | TypingStop (data : obj)
  | Disconnect.

(** The handlers registered in [io.on('connection', ...)] for the socket
    [sid]: the registry after the event, and what was emitted. *)
Definition on_socket_event (sid : string) (e : socket_event) (rs : rooms)
  : rooms * list delivery :=
  match e with
  | JoinBoard boardId =>
      let rs' := socket_join sid (board_room boardId) rs in
      (rs', socket_to_emit sid (board_room boardId) "user-joined" (PVal (VStr sid)) rs')
  | LeaveBoard boardId =>
      let rs' := socket_leave sid (board_room boardId) rs in
      (rs', socket_to_emit sid (board_room boardId) "user-left" (PVal (VStr sid)) rs')
  | CardPositionUpdate data =>
      (rs, socket_to_emit sid (board_room (get data "boardId"))
             "card-position-update" (PObj data) rs)
  | CursorUpdate data =>
      (rs, socket_to_emit sid (board_room (get data "boardId"))
             "cursor-update" (PObj (<["userId" := VStr sid]> data)) rs)
  | TypingStart data =>
      (rs, socket_to_emit sid (board_room (get data "boardId"))
             "typing-start" (PObj (<["userId" := VStr sid]> data)) rs)
  | TypingStop data =>
      (rs, socket_to_emit sid (board_room (get data "boardId"))
             "typing-stop" (PObj (<["userId" := VStr sid]> data)) rs)
  | Disconnect =>
      (* the handler only logs *)
      (socket_leaveAll sid rs, [])
  end.

(** The emits of the REST handlers, once the database statement succeeded.
    [card] is the [board_id] of the row read back, if there is a row. *)
Inductive api_event : Type :=
  | CardCreated (board_id : jsval) (newCard : obj)
  | CardUpdated (cardId : string) (updates : obj) (card : option jsval)
  | CardDeleted (cardId : string) (card : option jsval).

Definition on_api_event (a : api_event) (rs : rooms) : list delivery :=
  match a with
  | CardCreated board_id newCard =>
      io_to_emit (board_room board_id) "card-created" (PObj newCard) rs
  | CardUpdated cardId updates (Some board_id) =>
      (* { id: cardId, ...updates } *)
      io_to_emit (board_room board_id) "card-updated"
        (PObj (updates ∪ {["id" := VStr cardId]})) rs
  | CardDeleted cardId (Some board_id) =>
      io_to_emit (board_room board_id) "card-deleted" (PVal (VStr cardId)) rs
  | CardUpdated _ _ None | CardDeleted _ None => []
  end.

(** The room an event is emitted to and the name it is emitted under. *)
Definition target_room (e : socket_event) : option string :=
  match e with
  | JoinBoard b | LeaveBoard b => Some (board_room b)
  | CardPositionUpdate d | CursorUpdate d | TypingStart d | TypingStop d =>
      Some (board_room (get d "boardId"))
  | Disconnect => None
  end.

Definition api_room (a : api_event) : option string :=
  match a with
  | CardCreated b _ | CardUpdated _ _ (Some b) | CardDeleted _ (Some b) =>
      Some (board_room b)
  | _ => None
  end.

Definition recipients (ds : list delivery) : list string := recipient <$> ds.

(** A broadcast of either origin, as seen by the client whose socket is
    [sender]: a socket message of that socket, or a REST request of that
    client (the request itself names no socket). *)
Inductive broadcast : Type :=
  | FromSocket (e : socket_event)
  | FromApi (a : api_event).

Definition perform (sender : string) (b : broadcast) (rs : rooms) : list delivery :=
  match b with
  | FromSocket e => (on_socket_event sender e rs).2
  | FromApi a => on_api_event a rs
  end.

End Relay.
Import Relay.

(** ** Collaboration client ([CollaborationManager], collaboration.js)

    The fields of the manager.  [socket] tells whether [this.socket] was
    created; the two [Map]s are kept by their keys (the DOM nodes and the
    timers they hold are outside this model). *)
Module Client.

Record client : Type := Client {
  socket : bool;
  connected : bool;
  currentBoard : jsval;
  currentUser : string;
  cursors : list jsval;
  typingIndicators : list string;
  connectionRetries : Z
}.

(** What a method does to the outside: a message to the relay
    ([this.socket.emit]) or a local callback ([this.emit]). *)
Inductive effect : Type :=
  | SocketEmit (ev : string) (p : payload)
  | LocalEmit (ev : string) (args : list payload).

(** A method body: it runs on the manager's fields and leaves a result
    ([None] when it threw), the fields as they are then, and the effects in
    the order they were made. *)
Definition M (A : Type) : Type := client -> option A * client * list effect.

#[global] Instance M_ret : MRet M := λ A (a : A) st, (Some a, st, []).

#[global] Instance M_bind : MBind M := λ A B (k : A -> M B) (m : M A) st,
  match m st with
  | (Some a, st1, e1) =>
      match k a st1 with
      | (r, st2, e2) => (r, st2, e1 ++ e2)
      end
  | (None, st1, e1) => (None, st1, e1)
  end.

Definition this : M client := λ st, (Some st, st, []).

Definition assign (f : client -> client) : M unit := λ st, (Some tt, f st, []).

(** [this.socket.emit(ev, p)]; on a null socket it is a TypeError. *)
Definition socket_emit (ev : string) (p : payload) : M unit := λ st,
  if socket st then (Some tt, st, [SocketEmit ev p]) else (None, st, []).

(** [this.emit(ev, ...args)] *)
Definition local_emit (ev : string) (args : list payload) : M unit := λ st,
  (Some tt, st, [LocalEmit ev args]).

Definition set_connected (b : bool) (st : client) : client :=
  Client (socket st) b (currentBoard st) (currentUser st) (cursors st)
         (typingIndicators st) (connectionRetries st).

Definition set_currentBoard (v : jsval) (st : client) : client :=
  Client (socket st) (connected st) v (currentUser st) (cursors st)
         (typingIndicators st) (connectionRetries st).

Definition set_connectionRetries (n : Z) (st : client) : client :=
  Client (socket st) (connected st) (currentBoard st) (currentUser st)
         (cursors st) (typingIndicators st) n.

Definition clearAllCursors : M unit :=
  assign (λ st, Client (socket st) (connected st) (currentBoard st)
                  (currentUser st) [] (typingIndicators st) (connectionRetries st)).

Definition clearAllTypingIndicators : M unit :=
  assign (λ st, Client (socket st) (connected st) (currentBoard st)
                  (currentUser st) (cursors st) [] (connectionRetries st)).

Definition leaveBoard : M unit :=
  st ← this;
  if negb (socket st) || negb (truthy (currentBoard st)) then mret tt
  else
    socket_emit "leave-board" (PVal (currentBoard st));;
    local_emit "board-left" [PVal (currentBoard st)];;
    assign (set_currentBoard VNull);;
    clearAllCursors;;
    clearAllTypingIndicators.

Definition joinBoard (boardId : jsval) : M unit :=
  st ← this;
  if negb (socket st) || negb (connected st) then
    (* console.warn('Cannot join board: ...'); return *)
    mret tt
  else
    (if truthy (currentBoard st) && negb (strict_eq (currentBoard st) boardId)
     then leaveBoard else mret tt);;
    assign (set_currentBoard boardId);;
    socket_emit "join-board" (PVal boardId);;
    local_emit "board-joined" [PVal boardId].

Definition broadcastCardPosition (cardId x y : jsval) : M unit :=
  st ← this;
  if connected st && truthy (currentBoard st) then
    socket_emit "card-position-update"
      (PObj (<["cardId" := cardId]> (<["x" := x]> (<["y" := y]>
            (<["boardId" := currentBoard st]>
            (<["userId" := VStr (currentUser st)]> ∅))))))
  else mret tt.

(** [now] is what [Date.now()] returns at the call. *)
Definition broadcastCursorPosition (now : Z) (x y : jsval) : M unit :=
  st ← this;
  if connected st && truthy (currentBoard st) then
    socket_emit "cursor-update"
      (PObj (<["x" := x]> (<["y" := y]>
            (<["boardId" := currentBoard st]>
            (<["userId" := VStr (currentUser st)]>
            (<["timestamp" := VNum now]> ∅))))))
  else mret tt.

(** The listener of the socket's ['connect']. *)
Definition on_connect : M unit :=
  assign (set_connected true);;
  assign (set_connectionRetries 0);;
  local_emit "connected" [];;
  st ← this;
  if truthy (currentBoard st) then joinBoard (currentBoard st) else mret tt.

(** The listener of the socket's ['disconnect']. *)
Definition on_disconnect (reason : jsval) : M unit :=
  assign (set_connected false);;
  local_emit "disconnected" [PVal reason];;
  clearAllCursors;;
  clearAllTypingIndicators.

(** The four listeners of the card events. *)
Inductive mutation : Type :=
  | MCardCreated
  | MCardUpdated
  | MCardDeleted
  | MCardPositionUpdate.

Definition wire_name (m : mutation) : string :=
  match m with
  | MCardCreated => "card-created"
  | MCardUpdated => "card-updated"
  | MCardDeleted => "card-deleted"
  | MCardPositionUpdate => "card-position-update"
  end.

Definition on_mutation (m : mutation) (p : payload) : M unit :=
  match m with
  | MCardCreated => local_emit "remote-card-created" [p]
  | MCardUpdated => local_emit "remote-card-updated" [p]
  | MCardDeleted => local_emit "remote-card-deleted" [p]
  | MCardPositionUpdate => local_emit "remote-card-position-update" [p]
  end.

(** The state [in-room] of the specification. *)
Definition in_room (st : client) : bool := connected st && truthy (currentBoard st).

(** The origin an event carries: its [userId] field. *)
Definition origin (p : payload) : jsval :=
  match p with
  | PObj o => get o "userId"
  | PVal _ => VUndefined
  end.

Definition originated_locally (st : client) (p : payload) : bool :=
  strict_eq (origin p) (VStr (currentUser st)).

End Client.
Import Client.

(** ** A client session against the relay

    The socket messages a client method emits reach the relay in order and
    are handled there under the client's socket id.  A session sends board
    ids only; they are taken as emitted, which is how strings, non-zero
    numbers and [true] arrive (what the transport does to the other values
    is in [Transport] below). *)
Module Session.

Definition wire (e : effect) : option socket_event :=
  match e with
  | SocketEmit ev (PVal b) =>
      if String.eqb ev "join-board" then Some (JoinBoard b)
      else if String.eqb ev "leave-board" then Some (LeaveBoard b)
      else None
  | SocketEmit ev (PObj d) =>
      if String.eqb ev "card-position-update" then Some (CardPositionUpdate d)
      else if String.eqb ev "cursor-update" then Some (CursorUpdate d)
      else if String.eqb ev "typing-start" then Some (TypingStart d)
      else if String.eqb ev "typing-stop" then Some (TypingStop d)
      else None
  | LocalEmit _ _ => None
  end.

Definition relay_all (sid : string) (es : list effect) (rs : rooms) : rooms :=
  foldl (λ rs e, match wire e with
                 | Some m => (on_socket_event sid m rs).1
                 | None => rs
                 end) rs es.

(** A step of a session of the client on socket [sid]: a call of
    [joinBoard] or [leaveBoard], or a message of another socket. *)
Inductive step : Type :=
  | CallJoin (boardId : jsval)
  | CallLeave
  | Peer (sid' : string) (e : socket_event).

Definition run_step (sid : string) (sys : rooms * client) (s : step) : rooms * client :=
  match s with
  | CallJoin b =>
      match joinBoard b sys.2 with
      | (_, st', es) => (relay_all sid es sys.1, st')
      end
  | CallLeave =>
      match leaveBoard sys.2 with
      | (_, st', es) => (relay_all sid es sys.1, st')
      end
  | Peer sid' e => ((on_socket_event sid' e sys.1).1, sys.2)
  end.

Definition run (sid : string) (ss : list step) (sys : rooms * client) : rooms * client :=
  foldl (run_step sid) sys ss.

(** The steps the statement on sessions is about: board ids are truthy
    values and the other sockets are other sockets. *)
Definition well_formed (sid : string) (s : step) : Prop :=
  match s with
  | CallJoin b => truthy b = true
  | CallLeave => True
  | Peer sid' _ => sid' <> sid
  end.

End Session.
Import Session.

(** ** Worked scenarios

    The entities, registries, managers and sessions the examples below run
    on, and the invariant of a client session. *)

(** A date parser that knows no date string; the entities below are stamped
    with numbers. *)
Definition no_parse (s : string) : option Z := None.

(** An entity stamped [updated_at], and one that carries no timestamp. *)
Definition entity (id : string) (updated_at : Z) : obj :=
  <["id" := VStr id]> (<["updated_at" := VNum updated_at]> ∅).

Definition bare_entity (id title : string) : obj :=
  <["id" := VStr id]> (<["title" := VStr title]> ∅).

(** Two sockets, [A] and [B], in the room of board 1. *)
Definition rooms_AB : rooms :=
  (on_socket_event "B" (JoinBoard (VStr "1"))
     (on_socket_event "A" (JoinBoard (VStr "1")) ∅).1).1.

(** The payloads of a cursor move, of a created card and of a card drag. *)
Definition cursor_10_20 : obj :=
  <["x" := VNum 10]> (<["y" := VNum 20]> (<["boardId" := VStr "1"]> ∅)).

Definition card_on_board_1 : obj :=
  <["id" := VStr "c1"]> (<["board_id" := VStr "1"]> (<["title" := VStr "note"]> ∅)).

Definition drag_c1 : obj :=
  <["cardId" := VStr "c1"]> (<["x" := VNum 10]> (<["y" := VNum 20]>
  (<["boardId" := VStr "1"]> (<["userId" := VStr "user_1"]> ∅)))).

(** A manager whose socket exists and is not connected yet, and one that is
    connected and has joined no board. *)
Definition offline_client : client :=
  Client true false VNull "user_1" [] [] 0.

Definition idle_client : client :=
  Client true true VNull "user_1" [] [] 0.

(** A manager that had joined board [b1] when its transport dropped. *)
Definition dropped_client : client :=
  Client true false (VStr "b1") "user_1" [] [] 2.

(** The manager with both [Map]s cleared. *)
Definition clear_maps (st : client) : client :=
  Client (socket st) (connected st) (currentBoard st) (currentUser st) [] []
         (connectionRetries st).

(** What a session keeps true: the socket exists and is connected, and the
    only room that can hold it is the room of [currentBoard]. *)
Definition session_inv (sid : string) (sys : rooms * client) : Prop :=
  socket sys.2 = true /\ connected sys.2 = true /\
  forall r, sid ∈ membersOf sys.1 r ->
            truthy (currentBoard sys.2) = true /\ r = board_room (currentBoard sys.2).

(** The client joins board 1, a peer joins it too, the client moves to
    board 2. *)
Definition switch_boards : list step :=
  [CallJoin (VStr "1"); Peer "B" (JoinBoard (VStr "1")); CallJoin (VStr "2")].

(** ** User colours and display names ([getUserColor],
    [getUserDisplayName], [generateUserId], collaboration.js)

    A string is the sequence of its code units, taken below 256. *)
Module Identity.

(** ToInt32: what the bit operators make of a number. *)
Definition ToInt32 (z : Z) : Z := (z + 2 ^ 31) mod 2 ^ 32 - 2 ^ 31.

(** [userId.charCodeAt(i)] for every [i] in turn. *)
Fixpoint charCodes (s : string) : list Z :=
  match s with
  | EmptyString => []
  | String a s' => Z.of_nat (Ascii.nat_of_ascii a) :: charCodes s'
  end.

(** The body of the loop: [hash = ((hash << 5) - hash) + char;
    hash = hash & hash]. *)
Definition hash_step (hash char : Z) : Z :=
  let hash := (ToInt32 (hash * 2 ^ 5) - hash) + char in
  ToInt32 hash.

Definition colors : list string :=
  ["#FF6B6B"; "#4ECDC4"; "#45B7D1"; "#96CEB4"; "#FFEAA7";
   "#DDA0DD"; "#98D8C8"; "#F7DC6F"; "#BB8FCE"; "#85C1E9";
   "#F8C471"; "#82E0AA"; "#F1948A"; "#85C1E9"; "#D7DBDD"].

Definition userHash (userId : string) : Z := foldl hash_step 0 (charCodes userId).

(** [colors[Math.abs(hash) % colors.length]]; [None] is [undefined]. *)
Definition getUserColor (userId : string) : option string :=
  colors !! Z.to_nat (Z.rem (Z.abs (userHash userId)) (Z.of_nat (length colors))).

(** [s.split(c)] for a one-character separator. *)
Fixpoint split_on (c : Ascii.ascii) (s : string) : list string :=
  match s with
  | EmptyString => [EmptyString]
  | String a s' =>
      if Ascii.eqb a c then EmptyString :: split_on c s'
      else match split_on c s' with
           | x :: xs => String a x :: xs
           | [] => [String a EmptyString]
           end
  end.

(** [userId.split('_').pop().substring(0, 4)], then [`User ${shortId}`]. *)
Definition getUserDisplayName (userId : string) : string :=
  let shortId := String.substring 0 4 (List.last (split_on "_"%char userId) EmptyString) in
  "User " +:+ shortId.

(** [`user_${Date.now()}_${Math.random().toString(36).substr(2, 9)}`]:
    [now] is the clock and [rnd] the digits kept of the random number. *)
Definition generateUserId (now : Z) (rnd : string) : string :=
  "user_" +:+ pretty now +:+ "_" +:+ rnd.

(** The string holds no [c]. *)
Fixpoint free_of (c : Ascii.ascii) (s : string) : bool :=
  match s with
  | EmptyString => true
  | String a s' => negb (Ascii.eqb a c) && free_of c s'
  end.

(** The hash of the loop written as a polynomial in 31. *)
Definition poly31 (codes : list Z) : Z := foldl (λ h c, 31 * h + c) 0 codes.

End Identity.
Import Identity.

(** ** Runs of the relay

    What reaches the relay, in the order it is handled: a message of a
    socket, or the emit of a REST handler. *)
Module RelayRuns.

Inductive input : Type :=
  | OfSocket (sid : string) (e : socket_event)
  | OfRest (a : api_event).

Definition relay_step (st : rooms * list delivery) (i : input) : rooms * list delivery :=
  match i with
  | OfSocket sid e =>
      ((on_socket_event sid e st.1).1, st.2 ++ (on_socket_event sid e st.1).2)
  | OfRest a => (st.1, st.2 ++ on_api_event a st.1)
  end.

(** The registry after the inputs and everything that was delivered. *)
Definition relay_run (ins : list input) (rs : rooms) : rooms * list delivery :=
  foldl relay_step (rs, []) ins.

(** What an input makes of the membership of socket [c] in room [r]. *)
Definition room_op (c r : string) (joined : bool) (i : input) : bool :=
  match i with
  | OfSocket sid (JoinBoard b) =>
      if decide (sid = c /\ board_room b = r) then true else joined
  | OfSocket sid (LeaveBoard b) =>
      if decide (sid = c /\ board_room b = r) then false else joined
  | OfSocket sid Disconnect => if decide (sid = c) then false else joined
  | _ => joined
  end.

(** Whether the last input of [c] about room [r] was a join. *)
Definition joined_last (c r : string) (ins : list input) : bool :=
  foldl (room_op c r) false ins.

(** The inputs that are not messages of socket [c]. *)
Definition not_from (c : string) (i : input) : Prop :=
  match i with
  | OfSocket sid _ => sid <> c
  | OfRest _ => True
  end.

End RelayRuns.
Import RelayRuns.

(** ** More of the manager: retries, presence display, typing

    The listeners and methods of [CollaborationManager] that the sections
    above leave out.  A [Map] is the list of its keys in insertion order. *)
Module Presence.

Definition throw {A : Type} : M A := λ st, (None, st, []).

Definition set_cursors (l : list jsval) (st : client) : client :=
  Client (socket st) (connected st) (currentBoard st) (currentUser st) l
         (typingIndicators st) (connectionRetries st).

Definition set_typingIndicators (l : list string) (st : client) : client :=
  Client (socket st) (connected st) (currentBoard st) (currentUser st)
         (cursors st) l (connectionRetries st).

(** [this.maxRetries = 5] *)
Definition maxRetries : Z := 5.

(** The listener of the socket's ['connect_error']. *)
Definition on_connect_error (error : jsval) : M unit :=
  st0 ← this;
  assign (set_connectionRetries (connectionRetries st0 + 1));;
  st ← this;
  local_emit "connection-error"
    [PObj (<["error" := error]> (<["retries" := VNum (connectionRetries st)]> ∅))];;
  if maxRetries <=? connectionRetries st
  then local_emit "connection-failed" [PVal error]
  else mret tt.

(** [map.has(k)], [map.set(k, _)] and [map.delete(k)] on the keys. *)
Definition map_has {K : Type} `{EqDecision K} (k : K) (l : list K) : bool :=
  bool_decide (k ∈ l).

Definition map_set {K : Type} `{EqDecision K} (k : K) (l : list K) : list K :=
  if map_has k l then l else l ++ [k].

Definition map_delete {K : Type} `{EqDecision K} (k : K) (l : list K) : list K :=
  filter (λ x, x ≠ k) l.

(** [getOrCreateCursor]: a new marker is labelled with
    [getUserDisplayName(userId)], which throws unless [userId] is a string. *)
Definition getOrCreateCursor (userId : jsval) : M unit :=
  st ← this;
  if negb (map_has userId (cursors st)) then
    match userId with
    | VStr _ => assign (set_cursors (map_set userId (cursors st)))
    | _ => throw
    end
  else mret tt.

Definition updateCursor (cursorData : obj) : M unit :=
  st ← this;
  if strict_eq (get cursorData "userId") (VStr (currentUser st)) then mret tt
  else
    getOrCreateCursor (get cursorData "userId");;
    st' ← this;
    assign (set_cursors (map_set (get cursorData "userId") (cursors st'))).

Definition removeCursor (userId : jsval) : M unit :=
  st ← this;
  assign (set_cursors (map_delete userId (cursors st))).

(** [`${typingData.userId}-${typingData.cardId}-${typingData.fieldType}`] *)
Definition indicatorKey (typingData : obj) : string :=
  ToString (get typingData "userId") +:+ "-" +:+
  ToString (get typingData "cardId") +:+ "-" +:+
  ToString (get typingData "fieldType").

Definition hideTypingIndicator (typingData : obj) : M unit :=
  st ← this;
  assign (set_typingIndicators (map_delete (indicatorKey typingData) (typingIndicators st))).

(** [dom] holds the ids of the elements of the document.  The indicator is
    coloured and labelled from [userId], which throws unless it is a
    string. *)
Definition showTypingIndicator (dom : list string) (typingData : obj) : M unit :=
  st ← this;
  if strict_eq (get typingData "userId") (VStr (currentUser st)) then mret tt
  else if negb (bool_decide (("card-" +:+ ToString (get typingData "cardId")) ∈ dom))
  then mret tt
  else
    hideTypingIndicator typingData;;
    match get typingData "userId" with
    | VStr _ => mret tt
    | _ => throw
    end;;
    st' ← this;
    assign (set_typingIndicators (map_set (indicatorKey typingData) (typingIndicators st'))).

(** Every key that starts with [`${userId}-`] goes. *)
Definition removeTypingIndicator (userId : jsval) : M unit :=
  st ← this;
  assign (set_typingIndicators
            (filter (λ key, String.prefix (ToString userId +:+ "-") key = false)
                    (typingIndicators st))).

(** The listeners of ['user-joined'] and ['user-left']. *)
Definition on_user_joined (userId : jsval) : M unit :=
  local_emit "user-joined" [PVal userId].

Definition on_user_left (userId : jsval) : M unit :=
  local_emit "user-left" [PVal userId];;
  removeCursor userId;;
  removeTypingIndicator userId.

(** An element as the manager looks at it: its classes and the id of the
    closest [.note-card] around it, if there is one. *)
Record element : Type := Element {
  classList : list string;
  closest_note_card : option string
}.

Definition contains (el : element) (c : string) : bool :=
  bool_decide (c ∈ classList el).

Definition isCardInput (el : element) : bool :=
  contains el "card-title" || contains el "card-body" || contains el "card-details".

Definition getFieldType (el : element) : string :=
  if contains el "card-title" then "title"
  else if contains el "card-body" then "body"
  else if contains el "card-details" then "details"
  else "unknown".

(** What [.] matches: a code unit that ends no line. *)
Definition dot (a : ascii) : bool :=
  negb (Ascii.eqb a "010" || Ascii.eqb a "013").

(** The longest run [.+] can take at the head of [s]. *)
Fixpoint dots (s : string) : string :=
  match s with
  | EmptyString => EmptyString
  | String a s' => if dot a then String a (dots s') else EmptyString
  end.

(** [s] without the prefix [p], if it starts with [p]. *)
Fixpoint strip (p s : string) : option string :=
  match p, s with
  | EmptyString, _ => Some s
  | String a p', String b s' => if Ascii.eqb a b then strip p' s' else None
  | String _ _, EmptyString => None
  end.

(** [s.match(/card-(.+)/)]: the capture of the leftmost match. *)
Fixpoint match_card (s : string) : option string :=
  match s with
  | EmptyString => None
  | String a s' =>
      match strip "card-" s with
      | Some rest =>
          match dots rest with
          | EmptyString => match_card s'
          | cap => Some cap
          end
      | None => match_card s'
      end
  end.

Definition getCardIdFromElement (el : element) : jsval :=
  match closest_note_card el with
  | Some id =>
      match match_card id with
      | Some m => VStr m
      | None => VNull
      end
  | None => VNull
  end.

Definition typing_payload (st : client) (el : element) : payload :=
  PObj (<["cardId" := getCardIdFromElement el]>
       (<["fieldType" := VStr (getFieldType el)]>
       (<["boardId" := currentBoard st]>
       (<["userId" := VStr (currentUser st)]> ∅)))).

Definition startTyping (el : element) : M unit :=
  st ← this;
  if negb (connected st) || negb (truthy (currentBoard st)) then mret tt
  else if truthy (getCardIdFromElement el)
  then socket_emit "typing-start" (typing_payload st el)
  else mret tt.

Definition stopTyping (el : element) : M unit :=
  st ← this;
  if negb (connected st) || negb (truthy (currentBoard st)) then mret tt
  else if truthy (getCardIdFromElement el)
  then socket_emit "typing-stop" (typing_payload st el)
  else mret tt.

(** The document's [focusin] and [focusout] listeners. *)
Definition on_focusin (target : element) : M unit :=
  if isCardInput target then startTyping target else mret tt.

Definition on_focusout (target : element) : M unit :=
  if isCardInput target then stopTyping target else mret tt.

(** The manager after a method, and what the method did. *)
Definition state_after {A : Type} (m : M A) (st : client) : client := (m st).1.2.

Definition effects_of {A : Type} (m : M A) (st : client) : list effect := (m st).2.

(** The manager after a run of connection errors, with what was emitted. *)
Definition connect_errors (errs : list jsval) (st : client) : client * list effect :=
  foldl (λ acc err, (state_after (on_connect_error err) acc.1,
                     acc.2 ++ effects_of (on_connect_error err) acc.1))
        (st, []) errs.

Definition is_failed (e : effect) : bool :=
  match e with
  | LocalEmit ev _ => String.eqb ev "connection-failed"
  | SocketEmit _ _ => false
  end.

End Presence.
Import Presence.

(** ** The client and the relay together *)
Module EndToEnd.

(** The socket messages among the effects, as inputs of the relay. *)
Definition to_inputs (sid : string) (es : list effect) : list input :=
  omap (λ e, OfSocket sid <$> wire e) es.

(** The transport of socket [sid] drops and the manager connects again on
    the fresh socket [sid']. *)
Definition drop_and_reconnect (sid sid' : string) (reason : jsval)
    (sys : rooms * client) : rooms * client :=
  let rs1 := (on_socket_event sid Disconnect sys.1).1 in
  let st1 := state_after (on_disconnect reason) sys.2 in
  (relay_all sid' (effects_of on_connect st1) rs1, state_after on_connect st1).

End EndToEnd.
Import EndToEnd.

(** Every code unit of the string is one [.] matches. *)
Fixpoint all_dot (s : string) : bool :=
  match s with
  | EmptyString => true
  | String a s' => dot a && all_dot s'
  end.

(** The field types a card input can have. *)
Definition field_types : list string := ["title"; "body"; "details"].

(** ** The application's handlers of remote card events
    ([handleRemoteCardCreated], [handleRemoteCardUpdated],
    [handleRemoteCardDeleted], [getCardById], app.js)

    The active board with its cards, and the set of the selected card ids;
    rendering and status messages are what the handlers ask of the page. *)
Module App.

Record board : Type := Board {
  board_id : jsval;
  cards : list obj
}.

Record app_state : Type := MkApp {
  activeBoard : option board;
  selectedCards : list jsval
}.

Inductive ui : Type :=
  | QueueRender
  | ShowStatus (message kind : string).

(** [card.id === cardId] *)
Definition has_id (cardId : jsval) (card : obj) : Prop :=
  strict_eq (get card "id") cardId = true.

#[global] Instance has_id_dec cardId card : Decision (has_id cardId card).
Proof. unfold has_id. apply _. Defined.

Definition handleRemoteCardCreated (cardData : obj) (a : app_state) : app_state * list ui :=
  match activeBoard a with
  | Some b =>
      if strict_eq (get cardData "board_id") (board_id b) then
        (MkApp (Some (Board (board_id b) (cards b ++ [cardData]))) (selectedCards a),
         [QueueRender; ShowStatus "New card added by collaborator" "info"])
      else (a, [])
  | None => (a, [])
  end.

(** [currentUser] is [collaboration.currentUser]; [Object.assign(card,
    updateData)] writes every field of the event into the card found. *)
Definition handleRemoteCardUpdated (currentUser : string) (updateData : obj) (a : app_state)
  : app_state * list ui :=
  if strict_eq (get updateData "userId") (VStr currentUser) then (a, [])
  else
    match activeBoard a with
    | Some b =>
        match list_find (has_id (get updateData "id")) (cards b) with
        | Some (i, card) =>
            (MkApp (Some (Board (board_id b) (<[i := updateData ∪ card]> (cards b))))
                   (selectedCards a),
             [QueueRender])
        | None => (a, [])
        end
    | None => (a, [])
    end.

Definition handleRemoteCardDeleted (cardId : jsval) (a : app_state) : app_state * list ui :=
  match activeBoard a with
  | Some b =>
      match list_find (has_id cardId) (cards b) with
      | Some (i, _) =>
          (MkApp (Some (Board (board_id b) (delete i (cards b))))
                 (map_delete cardId (selectedCards a)),
           [QueueRender; ShowStatus "Card deleted by collaborator" "info"])
      | None => (a, [])
      end
  | None => (a, [])
  end.

(** The ids of the cards of a board. *)
Definition card_ids (b : board) : list jsval := (λ c : obj, get c "id") <$> cards b.

End App.
Import App.

(** ** What the transport does to a value

    Socket.IO sends the arguments of an [emit] as JSON.  An argument that is
    [undefined] or [NaN] arrives as [null]; inside an object, a field that
    holds [undefined] is dropped and [NaN] arrives as [null].  Strings,
    numbers, booleans and [null] arrive as they are. *)
Module Transport.

Definition json_value (v : jsval) : jsval :=
  match v with
  | VUndefined | VNaN => VNull
  | _ => v
  end.

Definition json_object (o : obj) : obj :=
  omap (λ v : jsval,
          match v with
          | VUndefined => None
          | VNaN => Some VNull
          | _ => Some v
          end) o.

Definition json (p : payload) : payload :=
  match p with
  | PObj o => PObj (json_object o)
  | PVal v => PVal (json_value v)
  end.

(** What reading a field gives on the other side, for a field that held
    [v]. *)
Definition json_field (v : jsval) : jsval :=
  match v with
  | VNaN => VNull
  | _ => v
  end.

(** A socket message as the relay receives it, and a delivery as the
    listener of its recipient receives it. *)
Definition on_the_wire (e : effect) : effect :=
  match e with
  | SocketEmit ev p => SocketEmit ev (json p)
  | LocalEmit _ _ => e
  end.

Definition received (d : delivery) : delivery :=
  Deliver (recipient d) (event d) (json (data d)).

(** The socket messages among the effects of a method of the client on
    socket [sid], sent to the relay: the registry afterwards, and what the
    recipients receive. *)
Definition relay_sent (sid : string) (es : list effect) (rs : rooms)
  : rooms * list delivery :=
  ((relay_run (to_inputs sid (on_the_wire <$> es)) rs).1,
   received <$> (relay_run (to_inputs sid (on_the_wire <$> es)) rs).2).

End Transport.
Import Transport.

(** ** The timestamp of an entity, field by field

    The field an entity carries: a field that holds [undefined] counts as
    not carried. *)
Definition carried (e : obj) (k : string) : option jsval :=
  match e !! k with
  | Some VUndefined => None
  | o => o
  end.

(** The timestamp read from [updated_at] whenever the entity carries that
    field, from [modified] when it carries only that one, and 0 when it
    carries neither. *)
Definition timestamp_when_carried (Date_parse : string -> option Z) (e : obj)
  : option Z :=
  match carried e "updated_at" with
  | Some v => Date_getTime Date_parse v
  | None =>
      match carried e "modified" with
      | Some w => Date_getTime Date_parse w
      | None => Some 0
      end
  end.

(** ** More scenarios *)

(** A [typing-start] of user [B] on the title of card [c1]. *)
Definition typing_on_c1 : obj :=
  <["userId" := VStr "B"]> (<["cardId" := VStr "c1"]> (<["fieldType" := VStr "title"]> ∅)).

(** The title input of the card rendered as [card-c1]. *)
Definition title_of_c1 : element :=
  Element ["card-title"; "editable"] (Some "card-c1").

(** Board 1 with the one card [c1]. *)
Definition board_1 : board := Board (VStr "1") [card_on_board_1].

(** An update of card [c1] made by the user [user_2]. *)
Definition rename_c1 : obj :=
  <["id" := VStr "c1"]> (<["title" := VStr "renamed"]> (<["userId" := VStr "user_2"]> ∅)).

(** A local version whose [updated_at] is 0 and whose [modified] is 500, and
    a remote version stamped 100. *)
Definition stale_local : obj :=
  <["id" := VStr "x"]> (<["updated_at" := VNum 0]> (<["modified" := VNum 500]> ∅)).

Definition remote_100 : obj := entity "x" 100.

(** A request body that renames a card, and one that carries an [id] of its
    own as well. *)
Definition retitle : obj := <["title" := VStr "renamed"]> ∅.

Definition retitle_as_c2 : obj :=
  <["id" := VStr "c2"]> (<["title" := VStr "renamed"]> ∅).

(** The [card-updated] event the relay emits for the first body sent for
    card [c1]. *)
Definition retitled_c1 : obj :=
  <["id" := VStr "c1"]> (<["title" := VStr "renamed"]> ∅).

(** * Properties *)

(** ** The conflict resolver *)
Section ResolverFacts.

Variable Date_parse : string -> option Z.

(** The timestamp the code computes is the specification's one. *)
Lemma timestamp_refines (e : obj) :
  Date_getTime Date_parse (js_or (js_or (get e "updated_at") (get e "modified")) (VNum 0))
  = modification_timestamp Date_parse e.
Proof.
  unfold modification_timestamp, get, js_or.
  destruct (e !! "updated_at") as [v|] eqn:Hu; simpl.
  - destruct (truthy v) eqn:Hv; simpl; [by rewrite Hv|].
    destruct (e !! "modified") as [w|]; simpl; [|done].
    by destruct (truthy w) eqn:Hw; simpl; rewrite ?Hw.
  - destruct (e !! "modified") as [w|]; simpl; [|done].
    by destruct (truthy w) eqn:Hw; simpl; rewrite ?Hw.
Qed.

Lemma resolveConflict_unfold l r :
  resolveConflict Date_parse l r =
  if js_ge (modification_timestamp Date_parse r) (modification_timestamp Date_parse l) then r else l.
Proof. unfold resolveConflict. by rewrite !timestamp_refines. Qed.

Lemma js_ge_refl_Some t : js_ge (Some t) (Some t) = true.
Proof. simpl. lia. Qed.

(** C5: [resolveConflict local remote] is the remote version exactly when
    the remote modification timestamp is [>=] the local one, and the local
    version otherwise; equal timestamps give the remote version. *)
Theorem resolveConflict_last_write_wins (l r : obj) :
  (js_ge (modification_timestamp Date_parse r) (modification_timestamp Date_parse l) = true ->
     resolveConflict Date_parse l r = r) /\
  (js_ge (modification_timestamp Date_parse r) (modification_timestamp Date_parse l) = false ->
     resolveConflict Date_parse l r = l) /\
  (l <> r ->
     (resolveConflict Date_parse l r = r <->
      js_ge (modification_timestamp Date_parse r) (modification_timestamp Date_parse l) = true)) /\
  (forall tl tr, modification_timestamp Date_parse l = Some tl ->
     modification_timestamp Date_parse r = Some tr ->
     (tl <= tr -> resolveConflict Date_parse l r = r) /\
     (tr < tl -> resolveConflict Date_parse l r = l)) /\
  (forall t, modification_timestamp Date_parse l = Some t ->
     modification_timestamp Date_parse r = Some t -> resolveConflict Date_parse l r = r).
Proof.
  rewrite resolveConflict_unfold.
  split; [|split; [|split; [|split]]].
  - by intros ->.
  - by intros ->.
  - intros Hne. by destruct (js_ge _ _); split.
  - intros tl tr -> ->. simpl. split; intros H.
    + by rewrite (proj2 (Z.leb_le tl tr) H).
    + by rewrite (proj2 (Z.leb_gt tl tr) H).
  - intros t -> ->. by rewrite js_ge_refl_Some.
Qed.

(** C6: resolving the outcome against the same remote version again
    changes nothing. *)
Theorem resolveConflict_idempotent (a b : obj) :
  resolveConflict Date_parse (resolveConflict Date_parse a b) b = resolveConflict Date_parse a b.
Proof.
  rewrite (resolveConflict_unfold a b).
  destruct (js_ge (modification_timestamp Date_parse b) (modification_timestamp Date_parse a)) eqn:Hab.
  - rewrite resolveConflict_unfold. by case_match.
  - rewrite resolveConflict_unfold. by rewrite Hab.
Qed.

Lemma modification_timestamp_read (e : obj) :
  modification_timestamp Date_parse e =
  if truthy (get e "updated_at") then Date_getTime Date_parse (get e "updated_at")
  else if truthy (get e "modified") then Date_getTime Date_parse (get e "modified")
  else Some 0.
Proof.
  rewrite <- timestamp_refines. unfold js_or.
  destruct (truthy (get e "updated_at")) eqn:Hu; [by rewrite Hu|].
  by destruct (truthy (get e "modified")).
Qed.

(** C10 (amended): [resolveConflict] compares, with [>=], the timestamps it
    reads this way: from [updated_at] when that field holds a truthy value,
    else from [modified] when that one does, else 0, the value read being
    turned into a time by [new Date(..).getTime()] (a number in range is its
    own time, a string is parsed).  So the fallback is taken for a field
    that is absent and for one that holds a falsy value alike; two versions
    that carry neither field resolve to the remote one. *)
Theorem resolveConflict_reads_timestamp (l r : obj) :
  resolveConflict Date_parse l r =
    (if js_ge (modification_timestamp Date_parse r) (modification_timestamp Date_parse l)
     then r else l) /\
  (forall e : obj, truthy (get e "updated_at") = true ->
     modification_timestamp Date_parse e = Date_getTime Date_parse (get e "updated_at")) /\
  (forall e : obj, truthy (get e "updated_at") = false ->
     truthy (get e "modified") = true ->
     modification_timestamp Date_parse e = Date_getTime Date_parse (get e "modified")) /\
  (forall e : obj, truthy (get e "updated_at") = false ->
     truthy (get e "modified") = false ->
     modification_timestamp Date_parse e = Some 0) /\
  (forall n : Z, Z.abs n <= 8640000000000000 ->
     Date_getTime Date_parse (VNum n) = Some n) /\
  (forall s : string, Date_getTime Date_parse (VStr s) = Date_parse s) /\
  (l !! "updated_at" = None -> l !! "modified" = None ->
   r !! "updated_at" = None -> r !! "modified" = None ->
   resolveConflict Date_parse l r = r).
Proof.
  split; [apply resolveConflict_unfold|].
  split; [by intros e He; rewrite modification_timestamp_read, He|].
  split; [by intros e He Hm; rewrite modification_timestamp_read, He, Hm|].
  split; [by intros e He Hm; rewrite modification_timestamp_read, He, Hm|].
  split.
  { intros n Hn. simpl. unfold TimeClip.
    by rewrite (proj2 (Z.leb_le _ _) Hn). }
  split; [done|].
  intros Hlu Hlm Hru Hrm. rewrite resolveConflict_unfold.
  unfold modification_timestamp. by rewrite Hlu, Hlm, Hru, Hrm.
Qed.

End ResolverFacts.

Lemma resolveConflict_last_write_wins_witness :
  resolveConflict no_parse (entity "x" 100) (entity "x" 200) = entity "x" 200 /\
  resolveConflict no_parse (entity "x" 200) (entity "x" 100) = entity "x" 200 /\
  resolveConflict no_parse (entity "x" 100) (entity "y" 100) = entity "y" 100.
Proof.
  split; [|split].
  - apply (proj1 (resolveConflict_last_write_wins no_parse
                    (entity "x" 100) (entity "x" 200))).
    reflexivity.
  - apply (proj1 (proj2 (resolveConflict_last_write_wins no_parse
                    (entity "x" 200) (entity "x" 100)))).
    reflexivity.
  - apply (proj2 (proj2 (proj2 (proj2 (resolveConflict_last_write_wins no_parse
                    (entity "x" 100) (entity "y" 100))))) 100); reflexivity.
Defined.

Lemma resolveConflict_reads_timestamp_witness :
  (modification_timestamp no_parse remote_100 = Date_getTime no_parse (VNum 100) /\
   modification_timestamp no_parse stale_local = Date_getTime no_parse (VNum 500) /\
   modification_timestamp no_parse (bare_entity "x" "mine") = Some 0) /\
  (Date_getTime no_parse (VNum 500) = Some 500 /\
   Date_getTime no_parse (VNum 100) = Some 100) /\
  resolveConflict no_parse (bare_entity "x" "mine") (bare_entity "x" "theirs")
  = bare_entity "x" "theirs".
Proof.
  pose proof (resolveConflict_reads_timestamp no_parse
                (bare_entity "x" "mine") (bare_entity "x" "theirs"))
    as (_ & Hu & Hm & H0 & Hn & _ & Hbare).
  split; [split; [|split]|split; [split|]].
  - apply (Hu remote_100). reflexivity.
  - apply (Hm stale_local); reflexivity.
  - apply (H0 (bare_entity "x" "mine")); reflexivity.
  - apply (Hn 500). lia.
  - apply (Hn 100). lia.
  - apply Hbare; reflexivity.
Defined.

(** C10 (as stated) fails: the local version carries [updated_at], which
    holds 0, and [modified], which holds 500.  Read from the field it
    carries, its timestamp is 0 and the remote version stamped 100 wins; the
    code skips the falsy [updated_at], reads 500 and keeps the local
    version. *)
Lemma falsy_updated_at_is_skipped :
  carried stale_local "updated_at" = Some (VNum 0) /\
  timestamp_when_carried no_parse stale_local = Some 0 /\
  (if js_ge (timestamp_when_carried no_parse remote_100)
            (timestamp_when_carried no_parse stale_local)
   then remote_100 else stale_local) = remote_100 /\
  resolveConflict no_parse stale_local remote_100 = stale_local /\
  stale_local <> remote_100 /\
  ~ (forall (Date_parse : string -> option Z) (l r : obj),
       resolveConflict Date_parse l r =
       if js_ge (timestamp_when_carried Date_parse r)
                (timestamp_when_carried Date_parse l)
       then r else l).
Proof.
  assert (stale_local <> remote_100) as Hne.
  { intros Heq.
    assert (stale_local !! "modified" = remote_100 !! "modified") as Hm
      by by rewrite Heq.
    vm_compute in Hm. discriminate. }
  assert (resolveConflict no_parse stale_local remote_100 = stale_local) as Hcode.
  { unfold resolveConflict.
    assert (js_ge
              (Date_getTime no_parse
                 (js_or (js_or (get remote_100 "updated_at") (get remote_100 "modified"))
                    (VNum 0)))
              (Date_getTime no_parse
                 (js_or (js_or (get stale_local "updated_at") (get stale_local "modified"))
                    (VNum 0))) = false) as -> by by vm_compute.
    done. }
  assert ((if js_ge (timestamp_when_carried no_parse remote_100)
                    (timestamp_when_carried no_parse stale_local)
           then remote_100 else stale_local) = remote_100) as Hclaim.
  { assert (js_ge (timestamp_when_carried no_parse remote_100)
                  (timestamp_when_carried no_parse stale_local) = true) as ->
      by by vm_compute.
    done. }
  split; [by vm_compute|]. split; [by vm_compute|].
  split; [done|]. split; [done|]. split; [done|].
  intros H. specialize (H no_parse stale_local remote_100).
  rewrite Hcode, Hclaim in H. done.
Qed.

(** ** The room registry *)
Section RegistryFacts.

Implicit Types (rs : rooms) (sid c room r ev : string) (p : payload).

Lemma elem_of_membersOf_join sid room rs c r :
  c ∈ membersOf (socket_join sid room rs) r <->
  (c = sid /\ r = room) \/ c ∈ membersOf rs r.
Proof.
  unfold socket_join, membersOf.
  destruct (decide (r = room)) as [->|Hne].
  - rewrite lookup_insert_eq. simpl. set_solver.
  - rewrite lookup_insert_ne by done. naive_solver.
Qed.

Lemma elem_of_membersOf_leave sid room rs c r :
  c ∈ membersOf (socket_leave sid room rs) r <->
  c ∈ membersOf rs r /\ ~ (c = sid /\ r = room).
Proof.
  unfold socket_leave, membersOf.
  destruct (rs !! room) as [s|] eqn:Hs.
  - case_decide as Hempty.
    + destruct (decide (r = room)) as [->|Hne].
      * rewrite lookup_delete_eq, Hs. simpl. set_solver.
      * rewrite lookup_delete_ne by done. naive_solver.
    + destruct (decide (r = room)) as [->|Hne].
      * rewrite lookup_insert_eq, Hs. simpl. set_solver.
      * rewrite lookup_insert_ne by done. naive_solver.
  - destruct (decide (r = room)) as [->|Hne].
    + rewrite Hs. simpl. set_solver.
    + naive_solver.
Qed.

Lemma elem_of_membersOf_leaveAll sid rs c r :
  c ∈ membersOf (socket_leaveAll sid rs) r <-> c ∈ membersOf rs r /\ c <> sid.
Proof.
  unfold socket_leaveAll, membersOf. rewrite lookup_omap.
  destruct (rs !! r) as [s|]; simpl; [|set_solver].
  case_decide; simpl; set_solver.
Qed.

Lemma recipients_Deliver ev p (l : list string) :
  recipients ((λ c, Deliver c ev p) <$> l) = l.
Proof. induction l as [|c l IH]; [done|]. unfold recipients in *. simpl. by f_equal. Qed.

Lemma elem_of_recipients_socket_to_emit sid room ev p rs c :
  c ∈ recipients (socket_to_emit sid room ev p rs) <->
  c ∈ membersOf rs room /\ c <> sid.
Proof.
  unfold socket_to_emit. rewrite recipients_Deliver.
  rewrite elem_of_elements. set_solver.
Qed.

Lemma elem_of_recipients_io_to_emit room ev p rs c :
  c ∈ recipients (io_to_emit room ev p rs) <-> c ∈ membersOf rs room.
Proof.
  unfold io_to_emit. rewrite recipients_Deliver.
  by rewrite elem_of_elements.
Qed.

Lemma NoDup_recipients_socket_to_emit sid room ev p rs :
  NoDup (recipients (socket_to_emit sid room ev p rs)).
Proof.
  unfold socket_to_emit. rewrite recipients_Deliver.
  apply NoDup_elements.
Qed.

Lemma elem_of_socket_to_emit sid room ev p rs (d : delivery) :
  d ∈ socket_to_emit sid room ev p rs ->
  event d = ev /\ data d = p /\ recipient d ∈ membersOf rs room /\ recipient d <> sid.
Proof.
  unfold socket_to_emit. intros (c & -> & Hc)%list_elem_of_fmap.
  apply elem_of_elements in Hc. simpl. set_solver.
Qed.

(** A message of one socket leaves the memberships of the others alone. *)
Lemma on_socket_event_other sid (e : socket_event) rs c r :
  c <> sid ->
  c ∈ membersOf (on_socket_event sid e rs).1 r <-> c ∈ membersOf rs r.
Proof.
  intros Hne. destruct e; simpl; try done.
  - rewrite elem_of_membersOf_join. naive_solver.
  - rewrite elem_of_membersOf_leave. naive_solver.
  - rewrite elem_of_membersOf_leaveAll. naive_solver.
Qed.

End RegistryFacts.

(** ** The broadcast relay *)

Lemma membersOf_rooms_AB c r :
  c ∈ membersOf rooms_AB r <-> (c = "A" \/ c = "B") /\ r = "board-1".
Proof.
  unfold rooms_AB. simpl. rewrite !elem_of_membersOf_join.
  unfold membersOf. rewrite lookup_empty. simpl.
  change (board_room (VStr "1")) with "board-1". set_solver.
Qed.

(** C1 (as stated) fails: a card created through the REST handler by the
    client whose socket is [A] is emitted to [A] as well. *)
Lemma card_created_reaches_its_creator :
  ~ (forall (rs : rooms) (sender : string) (b : broadcast) (d : delivery),
       d ∈ perform sender b rs -> recipient d <> sender).
Proof.
  intros H.
  apply (H rooms_AB "A" (FromApi (CardCreated (VStr "1") card_on_board_1))
           (Deliver "A" "card-created" (PObj card_on_board_1))); [|done].
  simpl. unfold io_to_emit. apply list_elem_of_fmap.
  exists "A". split; [done|].
  apply elem_of_elements, membersOf_rooms_AB. auto.
Qed.

(** C1 (amended): an event relayed for a socket reaches every member of
    the addressed room but that socket, once each, and never the socket
    itself; an event emitted by a REST handler reaches every member of the
    board's room. *)
Theorem relay_reaches_the_room (sid : string) (rs : rooms) :
  (forall e room, target_room e = Some room ->
     forall c, c ∈ recipients (on_socket_event sid e rs).2 <->
               c ∈ membersOf (on_socket_event sid e rs).1 room /\ c <> sid) /\
  (forall e, (sid ∉ recipients (on_socket_event sid e rs).2) /\
             NoDup (recipients (on_socket_event sid e rs).2)) /\
  (forall a room, api_room a = Some room ->
     forall c, c ∈ recipients (on_api_event a rs) <-> c ∈ membersOf rs room).
Proof.
  split; [|split].
  - intros e room Hroom c.
    destruct e; simpl in *; simplify_eq;
      apply elem_of_recipients_socket_to_emit.
  - intros e. split.
    + destruct e; simpl;
        rewrite ?elem_of_recipients_socket_to_emit; [naive_solver..|].
      apply not_elem_of_nil.
    + destruct e; simpl; try apply NoDup_recipients_socket_to_emit.
      apply NoDup_nil_2.
  - intros a room Hroom c.
    destruct a as [b o|i o [b|]|i [b|]]; simpl in *; simplify_eq;
      apply elem_of_recipients_io_to_emit.
Qed.

Lemma relay_reaches_the_room_witness :
  ("B" ∈ recipients (on_socket_event "A" (CursorUpdate cursor_10_20) rooms_AB).2 /\
   ("A" ∉ recipients (on_socket_event "A" (CursorUpdate cursor_10_20) rooms_AB).2)) /\
  "A" ∈ recipients (on_api_event (CardCreated (VStr "1") card_on_board_1) rooms_AB).
Proof.
  split; [split|].
  - apply (proj1 (relay_reaches_the_room "A" rooms_AB)
             (CursorUpdate cursor_10_20) "board-1" eq_refl "B").
    split; [|done]. apply membersOf_rooms_AB. auto.
  - apply (proj1 (proj2 (relay_reaches_the_room "A" rooms_AB))
             (CursorUpdate cursor_10_20)).
  - apply (proj2 (proj2 (relay_reaches_the_room "A" rooms_AB))
             (CardCreated (VStr "1") card_on_board_1) "board-1" eq_refl "A").
    apply membersOf_rooms_AB. auto.
Defined.

(** A closing socket leaves every room, and nothing is emitted for it. *)
Lemma disconnect_is_silent (sid : string) (rs : rooms) :
  (on_socket_event sid Disconnect rs).2 = [] /\
  (forall c r, c ∈ membersOf (on_socket_event sid Disconnect rs).1 r <->
               c ∈ membersOf rs r /\ c <> sid).
Proof. split; [done|]. intros c r. apply elem_of_membersOf_leaveAll. Qed.

(** C3: with [A] and [B] in the room of board 1, the disconnection of [A]
    takes [A] out of the room and emits nothing: [B] gets no [user-left],
    which it does get when [A] sends [leave-board]. *)
Theorem disconnect_without_user_left :
  (on_socket_event "A" Disconnect rooms_AB).2 = [] /\
  ("A" ∉ membersOf (on_socket_event "A" Disconnect rooms_AB).1 "board-1") /\
  "B" ∈ membersOf (on_socket_event "A" Disconnect rooms_AB).1 "board-1" /\
  Deliver "B" "user-left" (PVal (VStr "A"))
    ∈ (on_socket_event "A" (LeaveBoard (VStr "1")) rooms_AB).2.
Proof.
  split; [done|]. split; [|split].
  - rewrite (proj2 (disconnect_is_silent "A" rooms_AB)). naive_solver.
  - rewrite (proj2 (disconnect_is_silent "A" rooms_AB)), membersOf_rooms_AB.
    naive_solver.
  - simpl. unfold socket_to_emit. apply list_elem_of_fmap.
    exists "B". split; [done|].
    apply elem_of_elements, elem_of_difference. split; [|set_solver].
    apply elem_of_membersOf_leave. rewrite membersOf_rooms_AB. naive_solver.
Qed.

(** ** The payload the relay forwards *)

(** C7 (as stated) fails: the [card-position-update] of socket [A] reaches
    [B] as it came, with the [userId] the client wrote and without the id of
    the socket. *)
Lemma card_position_update_is_not_tagged :
  exists d : delivery,
    d ∈ (on_socket_event "A" (CardPositionUpdate drag_c1) rooms_AB).2 /\
    recipient d = "B" /\
    data d = PObj drag_c1 /\
    data d <> PObj (<["userId" := VStr "A"]> drag_c1) /\
    origin (data d) <> VStr "A".
Proof.
  exists (Deliver "B" "card-position-update" (PObj drag_c1)).
  split; [|split; [done|split; [done|split]]].
  - simpl. unfold socket_to_emit. apply list_elem_of_fmap.
    exists "B". split; [done|].
    apply elem_of_elements, elem_of_difference. split; [|set_solver].
    apply membersOf_rooms_AB. auto.
  - cbn [data]. intros Heq.
    assert (drag_c1 !! "userId" = (<["userId" := VStr "A"]> drag_c1) !! "userId")
      as Hu by congruence.
    rewrite lookup_insert_eq in Hu. vm_compute in Hu. discriminate.
  - vm_compute. discriminate.
Qed.

(** C7 (amended): [cursor-update], [typing-start] and [typing-stop] are
    forwarded with [userId] set to the id of the sending socket and every
    other field as received; [card-position-update] is forwarded exactly as
    received. *)
Theorem relay_forwards_payload (sid : string) (rs : rooms) (o : obj) (d : delivery) :
  (d ∈ (on_socket_event sid (CursorUpdate o) rs).2 \/
   d ∈ (on_socket_event sid (TypingStart o) rs).2 \/
   d ∈ (on_socket_event sid (TypingStop o) rs).2 ->
   exists o' : obj, data d = PObj o' /\
     o' !! "userId" = Some (VStr sid) /\
     forall k, k <> "userId" -> o' !! k = o !! k) /\
  (d ∈ (on_socket_event sid (CardPositionUpdate o) rs).2 -> data d = PObj o).
Proof.
  split.
  - intros Hd. exists (<["userId" := VStr sid]> o).
    split; [|split].
    + destruct Hd as [Hd|[Hd|Hd]]; simpl in Hd;
        by apply elem_of_socket_to_emit in Hd as (_ & -> & _).
    + apply lookup_insert_eq.
    + intros k Hk. by apply lookup_insert_ne.
  - simpl. by intros (_ & -> & _)%elem_of_socket_to_emit.
Qed.

Lemma relay_forwards_payload_witness :
  (exists o' : obj,
     PObj (<["userId" := VStr "A"]> cursor_10_20) = PObj o' /\
     o' !! "userId" = Some (VStr "A") /\
     forall k, k <> "userId" -> o' !! k = cursor_10_20 !! k) /\
  PObj drag_c1 = PObj drag_c1.
Proof.
  split.
  - apply (proj1 (relay_forwards_payload "A" rooms_AB cursor_10_20
             (Deliver "B" "cursor-update" (PObj (<["userId" := VStr "A"]> cursor_10_20))))).
    left. simpl. unfold socket_to_emit. apply list_elem_of_fmap.
    exists "B". split; [done|].
    apply elem_of_elements, elem_of_difference. split; [|set_solver].
    apply membersOf_rooms_AB. auto.
  - apply (proj2 (relay_forwards_payload "A" rooms_AB drag_c1
             (Deliver "B" "card-position-update" (PObj drag_c1)))).
    simpl. unfold socket_to_emit. apply list_elem_of_fmap.
    exists "B". split; [done|].
    apply elem_of_elements, elem_of_difference. split; [|set_solver].
    apply membersOf_rooms_AB. auto.
Defined.

(** ** The collaboration client *)

(** C4 (as stated) fails: a [card-position-update] that carries the
    manager's own [userId] still fires the local callback. *)
Lemma own_card_event_is_not_discarded :
  originated_locally idle_client (PObj drag_c1) = true /\
  on_mutation MCardPositionUpdate (PObj drag_c1) idle_client
  = (Some tt, idle_client, [LocalEmit "remote-card-position-update" [PObj drag_c1]]) /\
  ~ (forall st m p, originated_locally st p = true -> (on_mutation m p st).2 = []).
Proof.
  split; [by vm_compute|]. split; [done|].
  intros H. specialize (H idle_client MCardPositionUpdate (PObj drag_c1)).
  discriminate H. by vm_compute.
Qed.

(** C4 (amended): each of the four card listeners fires the matching
    [remote-] callback with the payload as received and leaves the manager
    as it was, whatever the origin of the event. *)
Theorem card_events_are_passed_on (st : client) (m : mutation) (p : payload) :
  on_mutation m p st = (Some tt, st, [LocalEmit ("remote-" +:+ wire_name m) [p]]).
Proof. by destruct m. Qed.

(** C8 (as stated) fails: [joinBoard] on a manager that is not connected
    changes nothing, and the connection that follows joins no board. *)
Lemma join_while_offline_is_forgotten :
  joinBoard (VStr "b1") offline_client = (Some tt, offline_client, []) /\
  on_connect offline_client = (Some tt, idle_client, [LocalEmit "connected" []]) /\
  ~ (forall st b, connected st = false ->
       SocketEmit "join-board" (PVal b) ∈ (on_connect (joinBoard b st).1.2).2).
Proof.
  split; [done|]. split; [done|].
  intros H. specialize (H offline_client (VStr "b1") eq_refl).
  vm_compute in H. apply list_elem_of_singleton in H. discriminate H.
Qed.

Lemma strict_eq_refl (v : jsval) : truthy v = true -> strict_eq v v = true.
Proof. destruct v; simpl; try done; intros _; by apply bool_decide_eq_true. Qed.

Lemma strict_eq_true (a b : jsval) : strict_eq a b = true -> a = b.
Proof.
  destruct a, b; simpl; try done; by intros ?%bool_decide_eq_true.
Qed.

(** C8 (amended): [joinBoard] on a manager that is not connected emits
    nothing and keeps every field; on ['connect'] the manager joins again
    the board it holds in [currentBoard], if it holds one. *)
Theorem join_needs_connection (st : client) (b : jsval) :
  (connected st = false -> joinBoard b st = (Some tt, st, [])) /\
  (socket st = true -> truthy (currentBoard st) = true ->
   on_connect st =
   (Some tt,
    set_currentBoard (currentBoard st) (set_connectionRetries 0 (set_connected true st)),
    [LocalEmit "connected" []; SocketEmit "join-board" (PVal (currentBoard st));
     LocalEmit "board-joined" [PVal (currentBoard st)]])) /\
  (truthy (currentBoard st) = false ->
   on_connect st =
   (Some tt, set_connectionRetries 0 (set_connected true st), [LocalEmit "connected" []])).
Proof.
  destruct st as [so co cb cu cs ti re]. simpl.
  split; [|split].
  - intros ->. unfold joinBoard, mbind, M_bind, this. simpl.
    by rewrite orb_true_r.
  - intros -> Hcb.
    unfold on_connect, joinBoard, mbind, M_bind, this, assign, local_emit,
      socket_emit, set_connected, set_connectionRetries, set_currentBoard.
    simpl. rewrite Hcb. simpl. rewrite Hcb, (strict_eq_refl cb Hcb). done.
  - intros Hcb.
    unfold on_connect, mbind, M_bind, this, assign, local_emit,
      set_connected, set_connectionRetries.
    simpl. by rewrite Hcb.
Qed.

Lemma join_needs_connection_witness :
  joinBoard (VStr "b2") dropped_client = (Some tt, dropped_client, []) /\
  (on_connect dropped_client).2 =
    [LocalEmit "connected" []; SocketEmit "join-board" (PVal (VStr "b1"));
     LocalEmit "board-joined" [PVal (VStr "b1")]] /\
  (on_connect offline_client).2 = [LocalEmit "connected" []].
Proof.
  split; [|split].
  - apply (proj1 (join_needs_connection dropped_client (VStr "b2"))).
    reflexivity.
  - rewrite (proj1 (proj2 (join_needs_connection dropped_client VNull)));
      reflexivity.
  - rewrite (proj2 (proj2 (join_needs_connection offline_client VNull)));
      reflexivity.
Defined.

(** C9: outside the state [in-room], [broadcastCursorPosition] and
    [broadcastCardPosition] emit nothing and leave the manager as it is. *)
Theorem broadcasts_dropped_outside_room
    (st : client) (now : Z) (cardId x y : jsval) :
  in_room st = false ->
  broadcastCursorPosition now x y st = (Some tt, st, []) /\
  broadcastCardPosition cardId x y st = (Some tt, st, []).
Proof.
  unfold in_room, broadcastCursorPosition, broadcastCardPosition,
    mbind, M_bind, this.
  simpl. by intros ->.
Qed.

Lemma broadcasts_dropped_outside_room_witness :
  (broadcastCursorPosition 1700000000000 (VNum 10) (VNum 20) offline_client
   = (Some tt, offline_client, []) /\
   broadcastCardPosition (VStr "c1") (VNum 10) (VNum 20) offline_client
   = (Some tt, offline_client, [])) /\
  (broadcastCursorPosition 1700000000000 (VNum 10) (VNum 20) idle_client
   = (Some tt, idle_client, []) /\
   broadcastCardPosition (VStr "c1") (VNum 10) (VNum 20) idle_client
   = (Some tt, idle_client, [])).
Proof.
  split.
  - apply (broadcasts_dropped_outside_room offline_client). reflexivity.
  - apply (broadcasts_dropped_outside_room idle_client). reflexivity.
Defined.

(** ** Sessions: one room at a time *)

(** C2 (as stated) fails: [A], in the room of board 1, sends [join-board]
    for board 2 and is then in both rooms; the cursor of [B] on board 1 is
    still sent to [A]. *)
Lemma second_join_keeps_the_first_room :
  "A" ∈ membersOf (on_socket_event "A" (JoinBoard (VStr "2")) rooms_AB).1 "board-1" /\
  "A" ∈ membersOf (on_socket_event "A" (JoinBoard (VStr "2")) rooms_AB).1 "board-2" /\
  "A" ∈ recipients
          (on_socket_event "B" (CursorUpdate cursor_10_20)
             (on_socket_event "A" (JoinBoard (VStr "2")) rooms_AB).1).2.
Proof.
  assert (forall r, r = "board-1" \/ r = "board-2" ->
            "A" ∈ membersOf (on_socket_event "A" (JoinBoard (VStr "2")) rooms_AB).1 r)
    as Hin.
  { intros r Hr. simpl. apply elem_of_membersOf_join.
    rewrite membersOf_rooms_AB. change (board_room (VStr "2")) with "board-2".
    naive_solver. }
  split; [|split].
  - apply Hin. auto.
  - apply Hin. auto.
  - simpl. apply elem_of_recipients_socket_to_emit. split; [|done].
    apply (Hin "board-1"). auto.
Qed.

Lemma leaveBoard_with_socket (st : client) :
  socket st = true ->
  leaveBoard st =
  if truthy (currentBoard st) then
    (Some tt, clear_maps (set_currentBoard VNull st),
     [SocketEmit "leave-board" (PVal (currentBoard st));
      LocalEmit "board-left" [PVal (currentBoard st)]])
  else (Some tt, st, []).
Proof.
  destruct st as [so co cb cu cs ti re]. simpl. intros ->.
  unfold leaveBoard, mbind, M_bind, this. simpl.
  destruct (truthy cb); [|done].
  unfold socket_emit, local_emit, assign, clearAllCursors,
    clearAllTypingIndicators, assign. simpl. done.
Qed.

Lemma joinBoard_when_connected (st : client) (b : jsval) :
  socket st = true -> connected st = true ->
  joinBoard b st =
  if truthy (currentBoard st) && negb (strict_eq (currentBoard st) b) then
    (Some tt, set_currentBoard b (clear_maps st),
     [SocketEmit "leave-board" (PVal (currentBoard st));
      LocalEmit "board-left" [PVal (currentBoard st)];
      SocketEmit "join-board" (PVal b);
      LocalEmit "board-joined" [PVal b]])
  else
    (Some tt, set_currentBoard b st,
     [SocketEmit "join-board" (PVal b); LocalEmit "board-joined" [PVal b]]).
Proof.
  intros Hso Hco.
  unfold joinBoard. unfold mbind at 1, M_bind at 1, this at 1.
  rewrite Hso, Hco. simpl.
  destruct (truthy (currentBoard st) && negb (strict_eq (currentBoard st) b)) eqn:Hc.
  - unfold mbind at 1, M_bind at 1. rewrite (leaveBoard_with_socket st Hso).
    apply andb_true_iff in Hc as [-> _].
    destruct st as [so co cb cu cs ti re]. simpl in *. subst so.
    reflexivity.
  - destruct st as [so co cb cu cs ti re]. simpl in *. subst so.
    reflexivity.
Qed.

Lemma run_step_inv (sid : string) (sys : rooms * client) (s : step) :
  well_formed sid s -> session_inv sid sys -> session_inv sid (run_step sid sys s).
Proof.
  destruct sys as [rs st]. unfold session_inv. simpl.
  intros Hwf (Hso & Hco & Hin). destruct s as [b|  |sid' e]; simpl in *.
  - rewrite (joinBoard_when_connected st b Hso Hco).
    destruct (truthy (currentBoard st) && negb (strict_eq (currentBoard st) b)) eqn:Hc;
      (split; [done|split; [done|]]); intros r; simpl;
      rewrite elem_of_membersOf_join, ?elem_of_membersOf_leave.
    + intros [[_ ->]|[Hr Hne]]; [done|].
      destruct (Hin r Hr) as [_ ->]. naive_solver.
    + intros [[_ ->]|Hr]; [done|].
      destruct (Hin r Hr) as [Ht ->]. rewrite Ht in Hc. simpl in Hc.
      apply negb_false_iff, strict_eq_true in Hc. by subst.
  - rewrite (leaveBoard_with_socket st Hso).
    destruct (truthy (currentBoard st)) eqn:Ht; simpl.
    + split; [done|split; [done|]]. intros r.
      rewrite elem_of_membersOf_leave. intros [Hr Hne].
      destruct (Hin r Hr) as [_ ->]. naive_solver.
    + split; [done|split; [done|]]. intros r Hr.
      destruct (Hin r Hr) as [? _]. congruence.
  - split; [done|split; [done|]]. intros r.
    rewrite on_socket_event_other by done. apply Hin.
Qed.

Lemma run_inv (sid : string) (ss : list step) (sys : rooms * client) :
  Forall (well_formed sid) ss -> session_inv sid sys -> session_inv sid (run sid ss sys).
Proof.
  unfold run. revert sys.
  induction ss as [|s ss IH]; intros sys Hwf Hinv; [done|].
  apply Forall_cons in Hwf as [Hs Hss]. simpl.
  apply IH; [done|]. by apply run_step_inv.
Qed.

(** C2 (amended): [join-board] adds the socket to the room it names and
    takes it out of no room.  A connected client leaves its current board
    before it joins another one, so over a session of [joinBoard] and
    [leaveBoard] calls, whatever the other sockets send, its socket is in at
    most one room, the one of [currentBoard]. *)
Theorem one_room_per_client_session (sid : string) :
  (forall b rs c r,
     c ∈ membersOf (on_socket_event sid (JoinBoard b) rs).1 r <->
     (c = sid /\ r = board_room b) \/ c ∈ membersOf rs r) /\
  (forall ss rs st,
     socket st = true -> connected st = true ->
     (forall r, sid ∉ membersOf rs r) ->
     Forall (well_formed sid) ss ->
     forall r1 r2,
       sid ∈ membersOf (run sid ss (rs, st)).1 r1 ->
       sid ∈ membersOf (run sid ss (rs, st)).1 r2 ->
       r1 = r2 /\ r1 = board_room (currentBoard (run sid ss (rs, st)).2)).
Proof.
  split.
  - intros b rs c r. simpl. apply elem_of_membersOf_join.
  - intros ss rs st Hso Hco Hout Hwf r1 r2 H1 H2.
    assert (session_inv sid (run sid ss (rs, st))) as (_ & _ & Hin).
    { apply run_inv; [done|]. split; [done|]. split; [done|].
      intros r Hr. by destruct (Hout r). }
    destruct (Hin r1 H1) as [_ ->]. by destruct (Hin r2 H2) as [_ ->].
Qed.

Lemma one_room_per_client_session_witness :
  "board-2" = "board-2" /\
  "board-2" = board_room (currentBoard (run "A" switch_boards (∅, idle_client)).2).
Proof.
  apply (proj2 (one_room_per_client_session "A")
           switch_boards ∅ idle_client eq_refl eq_refl).
  - intros r. unfold membersOf. rewrite lookup_empty. apply not_elem_of_empty.
  - repeat constructor; done.
  - by vm_compute.
  - by vm_compute.
Defined.

(** * Further properties *)

(** ** User colours and display names *)
Section IdentityFacts.

Lemma ToInt32_range (z : Z) : - 2 ^ 31 <= ToInt32 z < 2 ^ 31.
Proof.
  unfold ToInt32.
  pose proof (Z.mod_pos_bound (z + 2 ^ 31) (2 ^ 32) ltac:(lia)). lia.
Qed.

Lemma ToInt32_congr (a b : Z) :
  a mod 2 ^ 32 = b mod 2 ^ 32 -> ToInt32 a = ToInt32 b.
Proof.
  intros H. unfold ToInt32.
  rewrite (Z.add_mod a), (Z.add_mod b), H by lia. done.
Qed.

Lemma ToInt32_mod (z : Z) : ToInt32 z mod 2 ^ 32 = z mod 2 ^ 32.
Proof.
  unfold ToInt32.
  rewrite Zminus_mod, Z.mod_mod by lia.
  rewrite <- Zminus_mod. f_equal. lia.
Qed.

Lemma ToInt32_small (z : Z) : - 2 ^ 31 <= z < 2 ^ 31 -> ToInt32 z = z.
Proof. intros H. unfold ToInt32. rewrite Z.mod_small by lia. lia. Qed.

Lemma hash_step_31 (h c : Z) : hash_step h c = ToInt32 (31 * h + c).
Proof.
  unfold hash_step. apply ToInt32_congr.
  rewrite Z.add_mod, Zminus_mod, ToInt32_mod by lia.
  rewrite <- Zminus_mod, <- Z.add_mod by lia. f_equal. lia.
Qed.

Lemma hash_step_ToInt32 (h c : Z) :
  hash_step (ToInt32 h) c = ToInt32 (31 * h + c).
Proof.
  rewrite hash_step_31. apply ToInt32_congr.
  rewrite Z.add_mod, Z.mul_mod, ToInt32_mod by lia.
  rewrite <- Z.mul_mod, <- Z.add_mod by lia. done.
Qed.

Lemma foldl_hash_step (codes : list Z) (h : Z) :
  foldl hash_step (ToInt32 h) codes = ToInt32 (foldl (λ h c, 31 * h + c) h codes).
Proof.
  revert h. induction codes as [|c codes IH]; intros h; [done|].
  simpl. by rewrite hash_step_ToInt32, IH.
Qed.

(** X1: the hash the loop computes is the polynomial in 31 of the code
    units, taken as a 32-bit signed integer. *)
Theorem userHash_is_poly31 (userId : string) :
  userHash userId = ToInt32 (poly31 (charCodes userId)) /\
  - 2 ^ 31 <= userHash userId < 2 ^ 31.
Proof.
  assert (userHash userId = ToInt32 (poly31 (charCodes userId))) as ->.
  { unfold userHash, poly31. by rewrite <- foldl_hash_step. }
  split; [done|]. apply ToInt32_range.
Qed.

(** X2: every user id gets a colour of the palette, never [undefined]. *)
Theorem getUserColor_in_palette (userId : string) :
  exists c, getUserColor userId = Some c /\ c ∈ colors.
Proof.
  unfold getUserColor.
  set (i := Z.to_nat _).
  assert (i < length colors)%nat as Hi.
  { unfold i. simpl length.
    pose proof (Z.rem_bound_pos (Z.abs (userHash userId)) 15
                  ltac:(lia) ltac:(lia)).
    lia. }
  destruct (lookup_lt_is_Some_2 colors i Hi) as [c Hc].
  exists c. split; [done|]. by eapply list_elem_of_lookup_2.
Qed.

Lemma split_on_free (c : ascii) (s : string) :
  free_of c s = true -> split_on c s = [s].
Proof.
  induction s as [|a s IH]; [done|]. simpl.
  intros [Ha Hs]%andb_true_iff. apply negb_true_iff in Ha.
  by rewrite Ha, (IH Hs).
Qed.

Lemma split_on_not_nil (c : ascii) (s : string) : split_on c s <> [].
Proof.
  destruct s as [|a s]; [done|]. simpl.
  destruct (Ascii.eqb a c); [done|]. by destruct (split_on c s).
Qed.

Lemma split_on_app (c : ascii) (a b : string) :
  split_on c (a +:+ String c b) = split_on c a ++ split_on c b.
Proof.
  induction a as [|x a IH]; simpl.
  - by rewrite Ascii.eqb_refl.
  - destruct (Ascii.eqb x c); [by rewrite IH|].
    rewrite IH. pose proof (split_on_not_nil c a).
    by destruct (split_on c a).
Qed.

Lemma List_last_app (l1 l2 : list string) (d : string) :
  l2 <> [] -> List.last (l1 ++ l2) d = List.last l2 d.
Proof.
  intros Hne. induction l1 as [|x l1 IH]; [done|].
  simpl. rewrite IH. destruct (l1 ++ l2) eqn:E; [|done].
  by apply app_eq_nil in E as [_ ?].
Qed.

Lemma last_split_on_app (c : ascii) (a b : string) :
  List.last (split_on c (a +:+ String c b)) EmptyString
  = List.last (split_on c b) EmptyString.
Proof.
  rewrite split_on_app. apply List_last_app, split_on_not_nil.
Qed.

Lemma split_on_segments_free (c : ascii) (s : string) :
  Forall (λ x, free_of c x = true) (split_on c s).
Proof.
  induction s as [|a s IH]; simpl; [by repeat constructor|].
  destruct (Ascii.eqb a c) eqn:Ha; [by constructor|].
  destruct (split_on c s) as [|x xs]; [by repeat constructor; simpl; rewrite Ha|].
  apply Forall_cons in IH as [Hx Hxs].
  constructor; [|done]. simpl. by rewrite Ha, Hx.
Qed.

Lemma last_segment_free (c : ascii) (s : string) :
  free_of c (List.last (split_on c s) EmptyString) = true.
Proof.
  pose proof (split_on_segments_free c s) as H.
  induction H as [|x l Hx Hl IH]; [done|].
  destruct l; [done|]. apply IH.
Qed.

Lemma substring_0_length (n : nat) (s : string) :
  (String.length (String.substring 0 n s) <= n)%nat.
Proof.
  revert s. induction n as [|n IH]; intros [|a s]; simpl; try lia.
  specialize (IH s). lia.
Qed.

Lemma substring_0_free (c : ascii) (n : nat) (s : string) :
  free_of c s = true -> free_of c (String.substring 0 n s) = true.
Proof.
  revert s. induction n as [|n IH]; intros [|a s]; simpl; try done.
  intros [Ha Hs]%andb_true_iff. by rewrite Ha, (IH s Hs).
Qed.

(** X3: a display name is [User] and at most four characters, none of them
    an underscore; for an id without underscore (a socket id, say) they are
    its first four characters. *)
Theorem getUserDisplayName_shape (userId : string) :
  (exists shortId,
     getUserDisplayName userId = "User " +:+ shortId /\
     (String.length shortId <= 4)%nat /\
     free_of "_" shortId = true) /\
  (free_of "_" userId = true ->
   getUserDisplayName userId = "User " +:+ String.substring 0 4 userId).
Proof.
  split.
  - eexists. split; [reflexivity|]. split.
    + apply substring_0_length.
    + apply substring_0_free, last_segment_free.
  - intros Hfree. unfold getUserDisplayName. by rewrite (split_on_free _ _ Hfree).
Qed.

Lemma getUserDisplayName_shape_witness :
  getUserDisplayName "fK3-xQ9aa0" = "User fK3-".
Proof.
  apply (proj2 (getUserDisplayName_shape "fK3-xQ9aa0")). reflexivity.
Defined.

Lemma string_app_assoc (a b c : string) : a +:+ (b +:+ c) = (a +:+ b) +:+ c.
Proof.
  induction a as [|x a IH]; [done|].
  change (String x (a +:+ (b +:+ c)) = String x ((a +:+ b) +:+ c)).
  by rewrite IH.
Qed.

(** X4: the name shown for an id made by [generateUserId] is the first
    four digits of its random part. *)
Theorem display_name_of_generated_id (now : Z) (rnd : string) :
  free_of "_" rnd = true ->
  getUserDisplayName (generateUserId now rnd) = "User " +:+ String.substring 0 4 rnd.
Proof.
  intros Hfree. unfold getUserDisplayName, generateUserId.
  change ("_" +:+ rnd) with (String "_" rnd).
  rewrite string_app_assoc, last_split_on_app.
  by rewrite (split_on_free _ _ Hfree).
Qed.

Lemma display_name_of_generated_id_witness :
  getUserDisplayName (generateUserId 1700000000000 "k3x9q2m1z") = "User k3x9".
Proof.
  apply (display_name_of_generated_id 1700000000000 "k3x9q2m1z"). reflexivity.
Defined.

End IdentityFacts.

(** ** Runs of the relay *)
Section RelayRunFacts.

Implicit Types (rs : rooms) (sid c room r : string).

Lemma relay_run_snoc (ins : list input) (i : input) rs :
  relay_run (ins ++ [i]) rs = relay_step (relay_run ins rs) i.
Proof. unfold relay_run. by rewrite foldl_app. Qed.

Lemma room_op_sound (c r : string) (i : input) (st : rooms * list delivery) :
  c ∈ membersOf (relay_step st i).1 r <->
  room_op c r (bool_decide (c ∈ membersOf st.1 r)) i = true.
Proof.
  destruct i as [sid e|a]; simpl; [|by rewrite bool_decide_eq_true].
  destruct e; simpl; rewrite ?bool_decide_eq_true; try done.
  - rewrite elem_of_membersOf_join. case_decide; [naive_solver|].
    rewrite bool_decide_eq_true. naive_solver.
  - rewrite elem_of_membersOf_leave. case_decide; [naive_solver|].
    rewrite bool_decide_eq_true. naive_solver.
  - rewrite elem_of_membersOf_leaveAll. case_decide; [naive_solver|].
    rewrite bool_decide_eq_true. naive_solver.
Qed.

Lemma room_op_ext (c r : string) (i : input) (b1 b2 : bool) :
  b1 = b2 -> room_op c r b1 i = room_op c r b2 i.
Proof. by intros ->. Qed.

(** X5: a socket is a member of a room exactly when its last message about
    that room was [join-board]: a later [leave-board] of that room or its
    disconnection ends the membership, and the joins and leaves of other
    rooms do not touch it. *)
Theorem member_iff_joined_last (ins : list input) (c r : string) :
  c ∈ membersOf (relay_run ins ∅).1 r <-> joined_last c r ins = true.
Proof.
  induction ins as [|i ins IH] using rev_ind.
  - unfold relay_run, joined_last, membersOf. simpl. rewrite lookup_empty. simpl.
    set_solver.
  - rewrite relay_run_snoc, room_op_sound.
    unfold joined_last. rewrite foldl_app. simpl.
    fold (joined_last c r ins).
    erewrite room_op_ext; [done|].
    destruct (joined_last c r ins) eqn:Hj.
    + apply bool_decide_eq_true. by apply IH.
    + apply bool_decide_eq_false. rewrite IH. congruence.
Qed.

(** X6: joining a room and leaving it again gives back the memberships as
    they were, when the socket was not in the room before. *)
Theorem join_then_leave_restores (sid : string) (b : jsval) (rs : rooms) :
  sid ∉ membersOf rs (board_room b) ->
  forall c r,
    c ∈ membersOf (on_socket_event sid (LeaveBoard b)
                     (on_socket_event sid (JoinBoard b) rs).1).1 r <->
    c ∈ membersOf rs r.
Proof.
  intros Hout c r. simpl.
  rewrite elem_of_membersOf_leave, elem_of_membersOf_join.
  split; [naive_solver|]. intros Hc. split; [by right|].
  intros [-> ->]. by destruct Hout.
Qed.

Lemma join_then_leave_restores_witness :
  "C" ∉ membersOf (on_socket_event "C" (LeaveBoard (VStr "1"))
                     (on_socket_event "C" (JoinBoard (VStr "1")) rooms_AB).1).1
          "board-1".
Proof.
  assert ("C" ∉ membersOf rooms_AB (board_room (VStr "1"))) as HC.
  { rewrite membersOf_rooms_AB. intros [[?|?] _]; discriminate. }
  rewrite (join_then_leave_restores "C" (VStr "1") rooms_AB HC "C" "board-1").
  exact HC.
Defined.

(** X7: a [join-board] for a room the socket is in already changes no
    membership, and [user-joined] goes out again to every other member. *)
Theorem rejoin_announces_again (sid : string) (b : jsval) (rs : rooms) :
  sid ∈ membersOf rs (board_room b) ->
  (forall c r, c ∈ membersOf (on_socket_event sid (JoinBoard b) rs).1 r <->
               c ∈ membersOf rs r) /\
  forall c, c ∈ membersOf rs (board_room b) -> c <> sid ->
    Deliver c "user-joined" (PVal (VStr sid)) ∈ (on_socket_event sid (JoinBoard b) rs).2.
Proof.
  intros Hin. simpl. split.
  - intros c r. rewrite elem_of_membersOf_join. naive_solver.
  - intros c Hc Hne.
    unfold socket_to_emit. apply list_elem_of_fmap. exists c. split; [done|].
    apply elem_of_elements, elem_of_difference. split; [|set_solver].
    apply elem_of_membersOf_join. by right.
Qed.

Lemma rejoin_announces_again_witness :
  Deliver "B" "user-joined" (PVal (VStr "A"))
    ∈ (on_socket_event "A" (JoinBoard (VStr "1")) rooms_AB).2.
Proof.
  assert ("A" ∈ membersOf rooms_AB (board_room (VStr "1"))) as HA
    by (apply membersOf_rooms_AB; auto).
  apply (proj2 (rejoin_announces_again "A" (VStr "1") rooms_AB HA) "B");
    [apply membersOf_rooms_AB; auto|done].
Defined.

(** X8: a [leave-board] for a room the socket never joined changes no
    membership, and [user-left] is sent to the members of that room all the
    same: the relay does not check that the sender is in the room. *)
Theorem leave_by_outsider_is_announced (sid : string) (b : jsval) (rs : rooms) :
  sid ∉ membersOf rs (board_room b) ->
  (forall c r, c ∈ membersOf (on_socket_event sid (LeaveBoard b) rs).1 r <->
               c ∈ membersOf rs r) /\
  forall c, c ∈ membersOf rs (board_room b) ->
    Deliver c "user-left" (PVal (VStr sid)) ∈ (on_socket_event sid (LeaveBoard b) rs).2.
Proof.
  intros Hout. simpl. split.
  - intros c r. rewrite elem_of_membersOf_leave.
    split; [naive_solver|]. intros Hc. split; [done|].
    intros [-> ->]. by destruct Hout.
  - intros c Hc.
    unfold socket_to_emit. apply list_elem_of_fmap. exists c. split; [done|].
    apply elem_of_elements, elem_of_difference. split.
    + apply elem_of_membersOf_leave. split; [done|]. intros [-> _]. by destruct Hout.
    + intros ->%elem_of_singleton. by destruct Hout.
Qed.

Lemma leave_by_outsider_is_announced_witness :
  Deliver "A" "user-left" (PVal (VStr "C"))
    ∈ (on_socket_event "C" (LeaveBoard (VStr "1")) rooms_AB).2.
Proof.
  assert ("C" ∉ membersOf rooms_AB (board_room (VStr "1"))) as HC.
  { rewrite membersOf_rooms_AB. intros [[?|?] _]; discriminate. }
  apply (proj2 (leave_by_outsider_is_announced "C" (VStr "1") rooms_AB HC) "A").
  apply membersOf_rooms_AB. auto.
Defined.

Lemma recipients_app (d1 d2 : list delivery) :
  recipients (d1 ++ d2) = recipients d1 ++ recipients d2.
Proof. unfold recipients. apply fmap_app. Qed.

Lemma recipients_of_event sid (e : socket_event) rs c :
  c ∈ recipients (on_socket_event sid e rs).2 ->
  exists r, c ∈ membersOf (on_socket_event sid e rs).1 r.
Proof.
  destruct e; simpl;
    try (rewrite elem_of_recipients_socket_to_emit; intros [H _]; by eexists).
  by intros ?%not_elem_of_nil.
Qed.

Lemma recipients_of_api (a : api_event) rs c :
  c ∈ recipients (on_api_event a rs) -> exists r, c ∈ membersOf rs r.
Proof.
  destruct a as [b o|i o [b|]|i [b|]]; simpl;
    try (rewrite elem_of_recipients_io_to_emit; intros H; by eexists);
    by intros ?%not_elem_of_nil.
Qed.

Lemma outsider_gets_nothing (ins : list input) (c : string) (rs : rooms) :
  Forall (not_from c) ins -> (forall r, c ∉ membersOf rs r) ->
  (forall r, c ∉ membersOf (relay_run ins rs).1 r) /\
  c ∉ recipients (relay_run ins rs).2.
Proof.
  intros Hins Hout.
  induction ins as [|i ins IH] using rev_ind.
  - split; [done|]. apply not_elem_of_nil.
  - apply Forall_app in Hins as [Hins [Hi _]%Forall_cons].
    destruct (IH Hins) as [IHr IHd]. rewrite relay_run_snoc.
    destruct i as [sid e|a]; simpl in *.
    + assert (forall r, c ∉ membersOf (on_socket_event sid e (relay_run ins rs).1).1 r)
        as Hr by (intros r; by rewrite on_socket_event_other).
      split; [done|]. rewrite recipients_app, elem_of_app.
      intros [?|[r ?]%recipients_of_event]; [done|]. by destruct (Hr r).
    + split; [done|]. rewrite recipients_app, elem_of_app.
      intros [?|[r ?]%recipients_of_api]; [done|]. by destruct (IHr r).
Qed.

(** X9: once a socket has disconnected, nothing the other sockets send
    and nothing the REST handlers emit is delivered to it, and it is in no
    room. *)
Theorem nothing_after_disconnect (ins : list input) (c : string) (rs : rooms) :
  Forall (not_from c) ins ->
  (forall r, c ∉ membersOf (relay_run ins (on_socket_event c Disconnect rs).1).1 r) /\
  c ∉ recipients (relay_run ins (on_socket_event c Disconnect rs).1).2.
Proof.
  intros Hins. apply outsider_gets_nothing; [done|].
  intros r. simpl. rewrite elem_of_membersOf_leaveAll. naive_solver.
Qed.

Lemma nothing_after_disconnect_witness :
  "A" ∉ recipients
          (relay_run [OfSocket "B" (CursorUpdate cursor_10_20);
                      OfRest (CardCreated (VStr "1") card_on_board_1)]
             (on_socket_event "A" Disconnect rooms_AB).1).2.
Proof.
  apply (nothing_after_disconnect
           [OfSocket "B" (CursorUpdate cursor_10_20);
            OfRest (CardCreated (VStr "1") card_on_board_1)] "A" rooms_AB).
  repeat constructor; done.
Defined.

End RelayRunFacts.

(** ** Retries and reconnection *)
Section ConnectionFacts.

Lemma on_connect_error_run (err : jsval) (st : client) :
  on_connect_error err st =
  (Some tt, set_connectionRetries (connectionRetries st + 1) st,
   LocalEmit "connection-error"
     [PObj (<["error" := err]> (<["retries" := VNum (connectionRetries st + 1)]> ∅))]
   :: (if maxRetries <=? connectionRetries st + 1
       then [LocalEmit "connection-failed" [PVal err]] else [])).
Proof.
  destruct st as [so co cb cu cs ti re].
  unfold on_connect_error, mbind, M_bind, this, assign, local_emit,
    set_connectionRetries. simpl.
  by destruct (maxRetries <=? re + 1).
Qed.

Lemma connect_errors_snoc (errs : list jsval) (err : jsval) (st : client) :
  connect_errors (errs ++ [err]) st =
  (state_after (on_connect_error err) (connect_errors errs st).1,
   (connect_errors errs st).2
   ++ effects_of (on_connect_error err) (connect_errors errs st).1).
Proof. unfold connect_errors. by rewrite foldl_app. Qed.

(** X10: from a manager whose retry count is 0, a run of [n] connection
    errors leaves the count at [n] and emits [connection-failed] with every
    error from the fifth on, [n - 4] times in all; the other fields of the
    manager are untouched. *)
Theorem connection_failed_from_fifth_error (errs : list jsval) (st : client) :
  connectionRetries st = 0 ->
  (connect_errors errs st).1 =
    set_connectionRetries (Z.of_nat (length errs)) st /\
  length (filter (λ e, is_failed e = true) (connect_errors errs st).2)
    = (length errs - 4)%nat.
Proof.
  intros Hzero.
  induction errs as [|err errs [IHs IHe]] using rev_ind.
  - split; [|done]. destruct st; simpl in *. by subst.
  - rewrite connect_errors_snoc. unfold state_after, effects_of.
    rewrite on_connect_error_run, IHs. simpl.
    rewrite length_app, Nat2Z.inj_add. simpl. split; [done|].
    rewrite filter_app, length_app, IHe.
    unfold maxRetries.
    destruct (5 <=? Z.of_nat (length errs) + 1) eqn:Hle.
    + apply Z.leb_le in Hle.
      rewrite filter_cons_False by (simpl; congruence).
      rewrite filter_cons_True by done. simpl. lia.
    + apply Z.leb_gt in Hle.
      rewrite filter_cons_False by (simpl; congruence). simpl. lia.
Qed.

Lemma connection_failed_from_fifth_error_witness :
  length (filter (λ e, is_failed e = true)
            (connect_errors (replicate 6 (VStr "timeout")) offline_client).2) = 2%nat.
Proof.
  apply (proj2 (connection_failed_from_fifth_error
                  (replicate 6 (VStr "timeout")) offline_client eq_refl)).
Defined.

Lemma on_disconnect_run (reason : jsval) (st : client) :
  on_disconnect reason st =
  (Some tt, clear_maps (set_connected false st),
   [LocalEmit "disconnected" [PVal reason]]).
Proof. by destruct st. Qed.

Lemma on_connect_with_board (st : client) :
  socket st = true -> truthy (currentBoard st) = true ->
  on_connect st =
  (Some tt,
   set_currentBoard (currentBoard st) (set_connectionRetries 0 (set_connected true st)),
   [LocalEmit "connected" []; SocketEmit "join-board" (PVal (currentBoard st));
    LocalEmit "board-joined" [PVal (currentBoard st)]]).
Proof.
  destruct st as [so co cb cu cs ti re]. simpl. intros -> Hcb.
  unfold on_connect, joinBoard, mbind, M_bind, this, assign, local_emit,
    socket_emit, set_connected, set_connectionRetries, set_currentBoard.
  simpl. rewrite Hcb. simpl. rewrite Hcb, (strict_eq_refl cb Hcb). done.
Qed.

(** X11: when the transport of a client that is on a board drops and the
    manager connects again on a fresh socket, the old socket is in no room,
    the new one is in the room of the board and in no other, the other
    sockets are where they were, and the manager is back in the state
    [in-room] on the same board with its cursors and typing indicators
    cleared. *)
Theorem reconnect_rejoins_board
    (sid sid' : string) (reason : jsval) (rs : rooms) (st : client) :
  socket st = true -> truthy (currentBoard st) = true ->
  (forall r, sid' ∉ membersOf rs r) ->
  let sys := drop_and_reconnect sid sid' reason (rs, st) in
  (forall r, sid ∈ membersOf sys.1 r -> sid = sid') /\
  (forall r, sid' ∈ membersOf sys.1 r <-> r = board_room (currentBoard st)) /\
  (forall c r, c <> sid -> c <> sid' ->
     (c ∈ membersOf sys.1 r <-> c ∈ membersOf rs r)) /\
  sys.2 = clear_maps (set_connectionRetries 0 (set_connected true st)) /\
  in_room sys.2 = true.
Proof.
  intros Hso Hcb Hout. unfold drop_and_reconnect, state_after, effects_of.
  rewrite on_disconnect_run. cbn [fst snd].
  rewrite on_connect_with_board
    by (destruct st; simpl in *; done).
  cbn [fst snd].
  assert (currentBoard (clear_maps (set_connected false st)) = currentBoard st)
    as -> by by destruct st.
  simpl relay_all.
  split; [|split; [|split; [|split]]].
  - intros r. rewrite elem_of_membersOf_join, elem_of_membersOf_leaveAll.
    naive_solver.
  - intros r. rewrite elem_of_membersOf_join, elem_of_membersOf_leaveAll.
    split; [|naive_solver]. intros [[_ ->]|[Hr _]]; [done|]. by destruct (Hout r).
  - intros c r H1 H2.
    rewrite elem_of_membersOf_join, elem_of_membersOf_leaveAll. naive_solver.
  - destruct st; simpl in *. by subst.
  - destruct st; simpl in *. unfold in_room. simpl. by rewrite Hcb.
Qed.

Lemma reconnect_rejoins_board_witness :
  "A2" ∈ membersOf
           (drop_and_reconnect "A" "A2" (VStr "transport close")
              (rooms_AB, Client true true (VStr "1") "user_1" [] [] 0)).1
           "board-1".
Proof.
  apply (proj1 (proj2 (reconnect_rejoins_board "A" "A2" (VStr "transport close")
                         rooms_AB (Client true true (VStr "1") "user_1" [] [] 0)
                         eq_refl eq_refl
                         (λ r H, match proj1 (proj1 (membersOf_rooms_AB "A2" r) H)
                                 with
                                 | or_introl e => ltac:(discriminate e)
                                 | or_intror e => ltac:(discriminate e)
                                 end)))).
  reflexivity.
Defined.

End ConnectionFacts.

(** ** The manager and the registry agree *)
Section AgreementFacts.

Lemma run_step_joined (sid : string) (sys : rooms * client) (s : step) :
  well_formed sid s -> session_inv sid sys ->
  (truthy (currentBoard sys.2) = true ->
   sid ∈ membersOf sys.1 (board_room (currentBoard sys.2))) ->
  truthy (currentBoard (run_step sid sys s).2) = true ->
  sid ∈ membersOf (run_step sid sys s).1 (board_room (currentBoard (run_step sid sys s).2)).
Proof.
  destruct sys as [rs st]. unfold session_inv. simpl.
  intros Hwf (Hso & Hco & Hin) Hjoined.
  destruct s as [b|  |sid' e]; simpl in *.
  - rewrite (joinBoard_when_connected st b Hso Hco).
    destruct (truthy (currentBoard st) && negb (strict_eq (currentBoard st) b));
      simpl; intros _; rewrite elem_of_membersOf_join; auto.
  - rewrite (leaveBoard_with_socket st Hso).
    destruct (truthy (currentBoard st)) eqn:Ht; simpl; [done|].
    intros Ht'. congruence.
  - intros Ht. rewrite on_socket_event_other by done. auto.
Qed.

Lemma run_joined (sid : string) (ss : list step) (sys : rooms * client) :
  Forall (well_formed sid) ss -> session_inv sid sys ->
  (truthy (currentBoard sys.2) = true ->
   sid ∈ membersOf sys.1 (board_room (currentBoard sys.2))) ->
  truthy (currentBoard (run sid ss sys).2) = true ->
  sid ∈ membersOf (run sid ss sys).1 (board_room (currentBoard (run sid ss sys).2)).
Proof.
  unfold run. revert sys.
  induction ss as [|s ss IH]; intros sys Hwf Hinv Hj; [done|].
  apply Forall_cons in Hwf as [Hs Hss]. simpl.
  apply IH; [done| by apply run_step_inv | by apply run_step_joined].
Qed.

(** X12: over a session of a connected client that starts outside every
    room, the registry and the manager agree: the client's socket is in a
    room exactly when [currentBoard] holds a board, and the room is that
    board's. *)
Theorem registry_agrees_with_currentBoard
    (sid : string) (ss : list step) (rs : rooms) (st : client) :
  socket st = true -> connected st = true ->
  truthy (currentBoard st) = false ->
  (forall r, sid ∉ membersOf rs r) ->
  Forall (well_formed sid) ss ->
  forall r,
    sid ∈ membersOf (run sid ss (rs, st)).1 r <->
    truthy (currentBoard (run sid ss (rs, st)).2) = true /\
    r = board_room (currentBoard (run sid ss (rs, st)).2).
Proof.
  intros Hso Hco Hcb Hout Hwf r.
  assert (session_inv sid (rs, st)) as Hinv.
  { split; [done|]. split; [done|]. intros r0 Hr0. by destruct (Hout r0). }
  split.
  - by apply (run_inv sid ss (rs, st) Hwf Hinv).
  - intros [Ht ->]. apply run_joined; try done.
    simpl. congruence.
Qed.

Lemma registry_agrees_with_currentBoard_witness :
  "A" ∈ membersOf (run "A" switch_boards (∅, idle_client)).1 "board-2".
Proof.
  apply (registry_agrees_with_currentBoard "A" switch_boards ∅ idle_client
           eq_refl eq_refl eq_refl).
  - intros r. unfold membersOf. rewrite lookup_empty. apply not_elem_of_empty.
  - repeat constructor; done.
  - split; by vm_compute.
Defined.

End AgreementFacts.

(** ** From a method call to the peers *)
Section EndToEndFacts.

Lemma relay_run_single (sid : string) (e : socket_event) (rs : rooms) :
  relay_run [OfSocket sid e] rs = on_socket_event sid e rs.
Proof. unfold relay_run. simpl. by destruct (on_socket_event sid e rs). Qed.

Lemma to_inputs_cursor (sid : string) (o : obj) :
  to_inputs sid [SocketEmit "cursor-update" (PObj o)] = [OfSocket sid (CursorUpdate o)].
Proof. reflexivity. Qed.

Lemma to_inputs_card_position (sid : string) (o : obj) :
  to_inputs sid [SocketEmit "card-position-update" (PObj o)]
  = [OfSocket sid (CardPositionUpdate o)].
Proof. reflexivity. Qed.

Lemma get_json_object (o : obj) (k : string) :
  get (json_object o) k = json_field (get o k).
Proof.
  unfold get, json_object. rewrite lookup_omap.
  by destruct (o !! k) as [[]|].
Qed.

Lemma json_field_idem (v : jsval) : json_field (json_field v) = json_field v.
Proof. by destruct v. Qed.

Lemma json_field_truthy (v : jsval) : truthy v = true -> json_field v = v.
Proof. by destruct v. Qed.

Lemma get_insert_eq (o : obj) (k : string) (v : jsval) : get (<[k := v]> o) k = v.
Proof. unfold get. by rewrite lookup_insert_eq. Qed.

Lemma get_insert_ne (o : obj) (k k' : string) (v : jsval) :
  k <> k' -> get (<[k := v]> o) k' = get o k'.
Proof. intros Hne. unfold get. by rewrite lookup_insert_ne. Qed.

Lemma recipients_received (ds : list delivery) :
  recipients (received <$> ds) = recipients ds.
Proof.
  unfold recipients. rewrite <- list_fmap_compose.
  by apply list_fmap_ext.
Qed.

Lemma elem_of_received_emit (sid room ev : string) (p : payload) (rs : rooms)
    (d : delivery) :
  d ∈ received <$> socket_to_emit sid room ev p rs ->
  event d = ev /\ data d = json p.
Proof.
  intros (d0 & -> & Hd0)%list_elem_of_fmap.
  apply elem_of_socket_to_emit in Hd0 as (Hev & Hd & _).
  unfold received. simpl. by rewrite Hev, Hd.
Qed.

Ltac read_fields :=
  repeat first
    [ rewrite get_json_object
    | rewrite get_insert_eq
    | rewrite get_insert_ne by done
    | rewrite json_field_idem ].

(** X13: a cursor position sent by a client that is on a board reaches
    every other socket in the room of that board, once, with the sender's
    socket id as [userId], with the board and the time as sent and with the
    coordinates as the transport hands them on: as sent, except that a [NaN]
    coordinate arrives as [null]; the sender gets nothing. *)
Theorem cursor_reaches_the_board
    (sid : string) (now : Z) (x y : jsval) (rs : rooms) (st : client) :
  socket st = true -> in_room st = true ->
  let ds := (relay_sent sid (effects_of (broadcastCursorPosition now x y) st) rs).2 in
  (forall c, c ∈ recipients ds <->
             c ∈ membersOf rs (board_room (currentBoard st)) /\ c <> sid) /\
  NoDup (recipients ds) /\
  (forall d, d ∈ ds ->
     event d = "cursor-update" /\
     exists o, data d = PObj o /\
       get o "x" = json_field x /\ get o "y" = json_field y /\
       get o "boardId" = currentBoard st /\
       get o "timestamp" = VNum now /\
       get o "userId" = VStr sid).
Proof.
  intros Hso Hin. unfold in_room in Hin.
  pose proof Hin as [_ Hcb]%andb_true_iff.
  unfold relay_sent, effects_of.
  unfold broadcastCursorPosition, mbind, M_bind, this, socket_emit.
  cbn beta iota. rewrite Hin, Hso. cbn [snd app].
  rewrite list_fmap_singleton. cbn [on_the_wire json].
  rewrite to_inputs_cursor, relay_run_single. cbn [on_socket_event snd].
  rewrite recipients_received.
  assert (get (json_object
            (<["x" := x]> (<["y" := y]> (<["boardId" := currentBoard st]>
            (<["userId" := VStr (currentUser st)]>
            (<["timestamp" := VNum now]> ∅)))))) "boardId" = currentBoard st) as ->.
  { read_fields. by apply json_field_truthy. }
  split; [|split].
  - intros c. apply elem_of_recipients_socket_to_emit.
  - apply NoDup_recipients_socket_to_emit.
  - intros d [Hev Hd]%elem_of_received_emit.
    split; [done|]. eexists. split; [exact Hd|].
    read_fields. repeat split; try done.
    by apply json_field_truthy.
Qed.

Lemma cursor_reaches_the_board_witness :
  "B" ∈ recipients
          (relay_sent "A"
             (effects_of (broadcastCursorPosition 1700000000000 (VNum 10) VNaN)
                (Client true true (VStr "1") "user_1" [] [] 0))
             rooms_AB).2 /\
  ("A" ∉ recipients
          (relay_sent "A"
             (effects_of (broadcastCursorPosition 1700000000000 (VNum 10) VNaN)
                (Client true true (VStr "1") "user_1" [] [] 0))
             rooms_AB).2).
Proof.
  pose proof (cursor_reaches_the_board "A" 1700000000000 (VNum 10) VNaN
                rooms_AB (Client true true (VStr "1") "user_1" [] [] 0)
                eq_refl eq_refl) as [Hrec _].
  split.
  - apply (Hrec "B"). split; [|done]. apply membersOf_rooms_AB. auto.
  - intros HA. by apply (Hrec "A") in HA as [_ ?].
Defined.

(** X14: a card position sent by a client that is on a board reaches every
    other socket in the room of that board with the [userId] the manager
    generated for itself, not the id of its socket, with the board as sent
    and with the card id and the coordinates as the transport hands them
    on: as sent, except that [NaN] arrives as [null]. *)
Theorem card_position_reaches_the_board
    (sid : string) (cardId x y : jsval) (rs : rooms) (st : client) :
  socket st = true -> in_room st = true ->
  let ds := (relay_sent sid (effects_of (broadcastCardPosition cardId x y) st) rs).2 in
  (forall c, c ∈ recipients ds <->
             c ∈ membersOf rs (board_room (currentBoard st)) /\ c <> sid) /\
  (forall d, d ∈ ds ->
     event d = "card-position-update" /\
     exists o, data d = PObj o /\
       get o "cardId" = json_field cardId /\
       get o "x" = json_field x /\ get o "y" = json_field y /\
       get o "boardId" = currentBoard st /\
       get o "userId" = VStr (currentUser st)).
Proof.
  intros Hso Hin. unfold in_room in Hin.
  pose proof Hin as [_ Hcb]%andb_true_iff.
  unfold relay_sent, effects_of.
  unfold broadcastCardPosition, mbind, M_bind, this, socket_emit.
  cbn beta iota. rewrite Hin, Hso. cbn [snd app].
  rewrite list_fmap_singleton. cbn [on_the_wire json].
  rewrite to_inputs_card_position, relay_run_single. cbn [on_socket_event snd].
  rewrite recipients_received.
  assert (get (json_object
            (<["cardId" := cardId]> (<["x" := x]> (<["y" := y]>
            (<["boardId" := currentBoard st]>
            (<["userId" := VStr (currentUser st)]> ∅)))))) "boardId"
          = currentBoard st) as ->.
  { read_fields. by apply json_field_truthy. }
  split.
  - intros c. apply elem_of_recipients_socket_to_emit.
  - intros d [Hev Hd]%elem_of_received_emit.
    split; [done|]. eexists. split; [exact Hd|].
    read_fields. repeat split; try done.
    by apply json_field_truthy.
Qed.

Lemma card_position_reaches_the_board_witness :
  "B" ∈ recipients
          (relay_sent "A"
             (effects_of (broadcastCardPosition (VStr "c1") (VNum 10) (VNum 20))
                (Client true true (VStr "1") "user_1" [] [] 0))
             rooms_AB).2.
Proof.
  apply (proj1 (card_position_reaches_the_board "A" (VStr "c1") (VNum 10) (VNum 20)
                  rooms_AB (Client true true (VStr "1") "user_1" [] [] 0)
                  eq_refl eq_refl) "B").
  split; [|done]. apply membersOf_rooms_AB. auto.
Defined.

End EndToEndFacts.

(** ** Cursors and typing indicators *)
Section PresenceFacts.

Context {K : Type} `{EqDecision K}.

Lemma map_has_true (k : K) (l : list K) : map_has k l = true <-> k ∈ l.
Proof. unfold map_has. apply bool_decide_eq_true. Qed.

Lemma elem_of_map_delete (k x : K) (l : list K) :
  x ∈ map_delete k l <-> x ∈ l /\ x <> k.
Proof. unfold map_delete. rewrite list_elem_of_filter. naive_solver. Qed.

Lemma map_set_delete (k : K) (l : list K) :
  map_set k (map_delete k l) = map_delete k l ++ [k].
Proof.
  unfold map_set. destruct (map_has k (map_delete k l)) eqn:Hk; [|done].
  apply map_has_true, elem_of_map_delete in Hk. naive_solver.
Qed.

Lemma map_delete_snoc (k : K) (l : list K) :
  map_delete k (map_delete k l ++ [k]) = map_delete k l.
Proof.
  unfold map_delete. rewrite filter_app, filter_cons_False by naive_solver.
  rewrite filter_nil, app_nil_r. apply list_filter_filter_l. naive_solver.
Qed.

End PresenceFacts.

Section DisplayFacts.

Lemma updateCursor_run (d : obj) (st : client) :
  strict_eq (get d "userId") (VStr (currentUser st)) = false ->
  updateCursor d st =
  if map_has (get d "userId") (cursors st) then (Some tt, st, [])
  else match get d "userId" with
       | VStr _ => (Some tt, set_cursors (cursors st ++ [get d "userId"]) st, [])
       | _ => (None, st, [])
       end.
Proof.
  intros Hne. destruct st as [so co cb cu cs ti re]. simpl in *.
  unfold updateCursor, getOrCreateCursor, mbind, M_bind, this, assign, throw,
    set_cursors. simpl. rewrite Hne. simpl.
  destruct (map_has (get d "userId") cs) eqn:Hhas; simpl.
  - unfold map_set. by rewrite Hhas.
  - destruct (get d "userId") eqn:Hu; simpl; try done.
    unfold map_set at 2. rewrite Hhas.
    assert (map_set (VStr s) (cs ++ [VStr s]) = cs ++ [VStr s]) as ->; [|done].
    unfold map_set.
    assert (map_has (VStr s) (cs ++ [VStr s]) = true) as ->; [|done].
    apply map_has_true. set_solver.
Qed.

Lemma showTypingIndicator_run (dom : list string) (d : obj) (st : client) :
  strict_eq (get d "userId") (VStr (currentUser st)) = false ->
  ("card-" +:+ ToString (get d "cardId")) ∈ dom ->
  showTypingIndicator dom d st =
  match get d "userId" with
  | VStr _ =>
      (Some tt,
       set_typingIndicators
         (map_delete (indicatorKey d) (typingIndicators st) ++ [indicatorKey d]) st, [])
  | _ =>
      (None,
       set_typingIndicators (map_delete (indicatorKey d) (typingIndicators st)) st, [])
  end.
Proof.
  intros Hne Hdom. destruct st as [so co cb cu cs ti re]. simpl in *.
  unfold showTypingIndicator, hideTypingIndicator, mbind, M_bind, this, assign,
    throw, set_typingIndicators. simpl. rewrite Hne.
  rewrite (bool_decide_eq_true_2 _ Hdom). simpl.
  destruct (get d "userId"); simpl; try done.
  by rewrite map_set_delete.
Qed.

(** X15: a cursor or typing event that carries the manager's own
    [userId] is not displayed, and neither is a typing event for a card that
    is not in the document: the manager stays as it is. *)
Theorem own_presence_is_not_shown (dom : list string) (d : obj) (st : client) :
  (strict_eq (get d "userId") (VStr (currentUser st)) = true ->
   updateCursor d st = (Some tt, st, []) /\
   showTypingIndicator dom d st = (Some tt, st, [])) /\
  (("card-" +:+ ToString (get d "cardId")) ∉ dom ->
   showTypingIndicator dom d st = (Some tt, st, [])).
Proof.
  unfold updateCursor, showTypingIndicator, mbind, M_bind, this. simpl.
  split.
  - by intros ->.
  - intros Hdom. rewrite (bool_decide_eq_false_2 _ Hdom). simpl.
    by destruct (strict_eq _ _).
Qed.

Lemma own_presence_is_not_shown_witness :
  (updateCursor drag_c1 idle_client = (Some tt, idle_client, []) /\
   showTypingIndicator ["card-c1"] drag_c1 idle_client = (Some tt, idle_client, [])) /\
  showTypingIndicator [] cursor_10_20 idle_client = (Some tt, idle_client, []).
Proof.
  split.
  - apply (proj1 (own_presence_is_not_shown ["card-c1"] drag_c1 idle_client)).
    reflexivity.
  - apply (proj2 (own_presence_is_not_shown [] cursor_10_20 idle_client)).
    apply not_elem_of_nil.
Defined.

Lemma prefix_app (p s : string) : String.prefix p (p +:+ s) = true.
Proof.
  induction p as [|a p IH].
  - change ("" +:+ s) with s. by destruct s.
  - change (String a p +:+ s) with (String a (p +:+ s)). simpl.
    by destruct (ascii_dec a a).
Qed.

Lemma indicatorKey_prefix (d : obj) :
  String.prefix (ToString (get d "userId") +:+ "-") (indicatorKey d) = true.
Proof.
  unfold indicatorKey. rewrite string_app_assoc. apply prefix_app.
Qed.

(** X16: when [user-left] arrives for a user, the local callback fires and
    afterwards that user has no cursor and no typing indicator on any card
    or field; the cursors of the other users stay. *)
Theorem user_left_clears_presence (userId : jsval) (st : client) :
  effects_of (on_user_left userId) st = [LocalEmit "user-left" [PVal userId]] /\
  (forall k, k ∈ cursors (state_after (on_user_left userId) st) <->
             k ∈ cursors st /\ k <> userId) /\
  (forall d : obj, get d "userId" = userId ->
     indicatorKey d ∉ typingIndicators (state_after (on_user_left userId) st)) /\
  (forall key, key ∈ typingIndicators (state_after (on_user_left userId) st) ->
     key ∈ typingIndicators st).
Proof.
  destruct st as [so co cb cu cs ti re]. unfold state_after, effects_of. simpl.
  split; [done|]. split; [|split].
  - intros k. apply elem_of_map_delete.
  - intros d Hd. rewrite list_elem_of_filter. intros [Hp _].
    rewrite <- Hd, indicatorKey_prefix in Hp. discriminate.
  - intros key. rewrite list_elem_of_filter. naive_solver.
Qed.

Lemma user_left_clears_presence_witness :
  indicatorKey typing_on_c1
    ∉ typingIndicators
        (state_after (on_user_left (VStr "B"))
           (Client true true (VStr "1") "user_1" [VStr "B"] ["B-c1-title"] 0)).
Proof.
  apply (proj1 (proj2 (proj2 (user_left_clears_presence (VStr "B")
           (Client true true (VStr "1") "user_1" [VStr "B"] ["B-c1-title"] 0))))
           typing_on_c1).
  reflexivity.
Defined.

(** X17: a [typing-start] of another user for a card of the document puts
    the indicator of its key last in the map and leaves the other keys as
    they are; the [typing-stop] with the same data takes it out again, so
    that start followed by stop is the same as stop alone. *)
Theorem typing_stop_undoes_start (dom : list string) (d : obj) (u : string) (st : client) :
  get d "userId" = VStr u -> u <> currentUser st ->
  ("card-" +:+ ToString (get d "cardId")) ∈ dom ->
  typingIndicators (state_after (showTypingIndicator dom d) st)
  = map_delete (indicatorKey d) (typingIndicators st) ++ [indicatorKey d] /\
  state_after (hideTypingIndicator d) (state_after (showTypingIndicator dom d) st)
  = state_after (hideTypingIndicator d) st /\
  indicatorKey d ∉ typingIndicators (state_after (hideTypingIndicator d) st).
Proof.
  intros Hu Hne Hdom.
  assert (strict_eq (get d "userId") (VStr (currentUser st)) = false) as Hown.
  { rewrite Hu. simpl. apply bool_decide_eq_false. congruence. }
  unfold state_after at 1 2 3.
  rewrite (showTypingIndicator_run dom d st Hown Hdom), Hu.
  destruct st as [so co cb cu cs ti re]. unfold state_after. simpl.
  split; [done|]. split.
  - unfold set_typingIndicators. simpl. by rewrite map_delete_snoc.
  - rewrite elem_of_map_delete. naive_solver.
Qed.

Lemma typing_stop_undoes_start_witness :
  typingIndicators (state_after (showTypingIndicator ["card-c1"] typing_on_c1) idle_client)
  = ["B-c1-title"].
Proof.
  apply (proj1 (typing_stop_undoes_start ["card-c1"] typing_on_c1 "B" idle_client
                  eq_refl ltac:(discriminate) ltac:(apply list_elem_of_here))).
Defined.

End DisplayFacts.

(** ** Card inputs and typing *)
Section TypingFacts.

Lemma dots_all_dot (s : string) : all_dot s = true -> dots s = s.
Proof.
  induction s as [|a s IH]; [done|]. simpl.
  intros [-> Hs]%andb_true_iff. by rewrite (IH Hs).
Qed.

Lemma all_dot_dots (s : string) : all_dot (dots s) = true.
Proof.
  induction s as [|a s IH]; [done|]. simpl.
  destruct (dot a) eqn:Ha; [|done]. simpl. by rewrite Ha.
Qed.

Lemma match_card_shape (s m : string) :
  match_card s = Some m -> m <> EmptyString /\ all_dot m = true.
Proof.
  induction s as [|a s IH]; [done|].
  cbn [match_card].
  destruct (strip "card-" (String a s)) as [rest|]; [|done].
  destruct (dots rest) as [|b cap] eqn:Hd; [done|].
  intros [= <-]. split; [done|]. rewrite <- Hd. apply all_dot_dots.
Qed.

Lemma strip_app (p s : string) : strip p (p +:+ s) = Some s.
Proof.
  induction p as [|a p IH]; [by destruct s|].
  change (String a p +:+ s) with (String a (p +:+ s)). simpl.
  by rewrite Ascii.eqb_refl.
Qed.

Lemma match_card_of_id (cid : string) :
  cid <> EmptyString -> all_dot cid = true ->
  match_card ("card-" +:+ cid) = Some cid.
Proof.
  intros Hne Hdot.
  change ("card-" +:+ cid) with (String "c" ("ard-" +:+ cid)).
  cbn [match_card].
  change (String "c" ("ard-" +:+ cid)) with ("card-" +:+ cid).
  rewrite strip_app, (dots_all_dot cid Hdot).
  by destruct cid.
Qed.

(** X18: for an element inside the card that was rendered with the id
    [card-] followed by the card's id, [getCardIdFromElement] gives back the
    card's id, when that id is not empty and holds no line break. *)
Theorem card_id_round_trip (el : element) (cid : string) :
  closest_note_card el = Some ("card-" +:+ cid) ->
  cid <> EmptyString -> all_dot cid = true ->
  getCardIdFromElement el = VStr cid.
Proof.
  intros Hel Hne Hdot. unfold getCardIdFromElement.
  by rewrite Hel, (match_card_of_id cid Hne Hdot).
Qed.

Lemma card_id_round_trip_witness : getCardIdFromElement title_of_c1 = VStr "c1".
Proof.
  apply (card_id_round_trip title_of_c1 "c1" eq_refl); [discriminate|reflexivity].
Defined.

Lemma getCardIdFromElement_shape (el : element) :
  getCardIdFromElement el = VNull \/
  exists m, getCardIdFromElement el = VStr m /\ m <> EmptyString /\ all_dot m = true.
Proof.
  unfold getCardIdFromElement.
  destruct (closest_note_card el) as [id|]; [|by left].
  destruct (match_card id) as [m|] eqn:Hm; [|by left].
  right. exists m. split; [done|]. by apply match_card_shape in Hm.
Qed.

Lemma getFieldType_of_input (el : element) :
  isCardInput el = true -> getFieldType el ∈ field_types.
Proof.
  unfold isCardInput, getFieldType, field_types.
  destruct (contains el "card-title"); [set_solver|].
  destruct (contains el "card-body"); [set_solver|].
  destruct (contains el "card-details"); [set_solver|done].
Qed.

(** X19: the [focusin] listener never changes the manager and emits at
    most one message.  When it emits, the manager is on a board, the message
    is a [typing-start] for that board under the manager's [userId], its
    [cardId] is a non-empty string without line break and its [fieldType]
    is [title], [body] or [details], never [unknown]. *)
Theorem focusin_sends_well_formed_typing_start (target : element) (st : client) :
  state_after (on_focusin target) st = st /\
  (effects_of (on_focusin target) st = [] \/
   exists o m,
     effects_of (on_focusin target) st = [SocketEmit "typing-start" (PObj o)] /\
     in_room st = true /\
     get o "boardId" = currentBoard st /\
     get o "userId" = VStr (currentUser st) /\
     get o "cardId" = VStr m /\ m <> EmptyString /\ all_dot m = true /\
     get o "fieldType" = VStr (getFieldType target) /\
     getFieldType target ∈ field_types).
Proof.
  unfold state_after, effects_of, on_focusin.
  destruct (isCardInput target) eqn:Hinput; [|by split; [|left]].
  unfold startTyping, mbind, M_bind, this, socket_emit, in_room. simpl.
  destruct (connected st); simpl; [|by split; [|left]].
  destruct (truthy (currentBoard st)) eqn:Hcb; simpl; [|by split; [|left]].
  destruct (getCardIdFromElement_shape target) as [Hnull|(m & Hm & Hne & Hdot)].
  { rewrite Hnull. simpl. by split; [|left]. }
  assert (truthy (getCardIdFromElement target) = true) as ->.
  { rewrite Hm. simpl. destruct m; [done|reflexivity]. }
  destruct (socket st); simpl; [|by split; [|left]].
  split; [done|]. right. eexists _, m. split; [reflexivity|].
  split; [done|].
  unfold get. rewrite ?lookup_insert_eq, ?lookup_insert_ne by done. simpl.
  rewrite Hm. repeat split; try done.
  by apply getFieldType_of_input.
Qed.

Lemma to_inputs_typing_start (sid : string) (o : obj) :
  to_inputs sid [SocketEmit "typing-start" (PObj o)] = [OfSocket sid (TypingStart o)].
Proof. reflexivity. Qed.

(** X20: when a user who is on a board focuses an input of the card
    [cid], every other socket in the room of the board is sent a
    [typing-start]; a manager that receives it and has that card in its
    document then shows an indicator under the key made of the sender's
    socket id, the card id and the field type. *)
Theorem typing_start_reaches_the_card
    (sid cid : string) (target : element) (rs : rooms) (st : client) :
  socket st = true -> in_room st = true ->
  isCardInput target = true ->
  closest_note_card target = Some ("card-" +:+ cid) ->
  cid <> EmptyString -> all_dot cid = true ->
  let ds := (relay_run (to_inputs sid (effects_of (on_focusin target) st)) rs).2 in
  (forall c, c ∈ recipients ds <->
             c ∈ membersOf rs (board_room (currentBoard st)) /\ c <> sid) /\
  (forall d, d ∈ ds ->
     event d = "typing-start" /\
     exists o, data d = PObj o /\
       indicatorKey o = sid +:+ "-" +:+ cid +:+ "-" +:+ getFieldType target /\
       forall (dom : list string) (st2 : client),
         currentUser st2 <> sid -> ("card-" +:+ cid) ∈ dom ->
         indicatorKey o ∈ typingIndicators (state_after (showTypingIndicator dom o) st2)).
Proof.
  intros Hso Hin Hinput Hel Hne Hdot. unfold in_room in Hin.
  apply andb_true_iff in Hin as [Hco Hcb].
  pose proof (card_id_of_target := match_card_of_id cid Hne Hdot).
  assert (getCardIdFromElement target = VStr cid) as Hcid.
  { unfold getCardIdFromElement. by rewrite Hel, card_id_of_target. }
  unfold effects_of, on_focusin. rewrite Hinput.
  unfold startTyping, mbind, M_bind, this, socket_emit.
  cbn beta iota. rewrite Hco, Hcb, Hcid.
  assert (truthy (VStr cid) = true) as -> by (destruct cid; done).
  cbn [negb orb]. cbn beta iota. rewrite Hso.
  cbn [snd app]. unfold typing_payload. rewrite Hcid.
  rewrite to_inputs_typing_start, relay_run_single. cbn [on_socket_event snd].
  unfold get at 1. rewrite !lookup_insert_ne, lookup_insert_eq by done.
  cbn [default].
  split.
  - intros c. apply elem_of_recipients_socket_to_emit.
  - intros d (Hev & Hd & _)%elem_of_socket_to_emit.
    split; [done|]. eexists. split; [done|].
    assert (forall o' : obj,
              get (<["userId" := VStr sid]> (<["cardId" := VStr cid]>
                  (<["fieldType" := VStr (getFieldType target)]> o'))) "userId" = VStr sid /\
              get (<["userId" := VStr sid]> (<["cardId" := VStr cid]>
                  (<["fieldType" := VStr (getFieldType target)]> o'))) "cardId" = VStr cid /\
              get (<["userId" := VStr sid]> (<["cardId" := VStr cid]>
                  (<["fieldType" := VStr (getFieldType target)]> o'))) "fieldType"
              = VStr (getFieldType target)) as Hget.
    { intros o'. unfold get.
      repeat first [rewrite lookup_insert_eq | rewrite lookup_insert_ne by done].
      done. }
    destruct (Hget (<["boardId" := currentBoard st]>
                     (<["userId" := VStr (currentUser st)]> ∅))) as (Hu & Hc & Hf).
    assert (indicatorKey
              (<["userId" := VStr sid]> (<["cardId" := VStr cid]>
               (<["fieldType" := VStr (getFieldType target)]>
               (<["boardId" := currentBoard st]>
               (<["userId" := VStr (currentUser st)]> ∅)))))
            = sid +:+ "-" +:+ cid +:+ "-" +:+ getFieldType target) as Hkey.
    { unfold indicatorKey. by rewrite Hu, Hc, Hf. }
    split; [done|].
    intros dom st2 Hother Hdom. unfold state_after.
    rewrite showTypingIndicator_run.
    + rewrite Hu. destruct st2; simpl. set_solver.
    + rewrite Hu. simpl. apply bool_decide_eq_false. congruence.
    + by rewrite Hc.
Qed.

Lemma typing_start_reaches_the_card_witness :
  "B" ∈ recipients
          (relay_run
             (to_inputs "A"
                (effects_of (on_focusin title_of_c1)
                   (Client true true (VStr "1") "user_1" [] [] 0)))
             rooms_AB).2.
Proof.
  apply (proj1 (typing_start_reaches_the_card "A" "c1" title_of_c1 rooms_AB
                  (Client true true (VStr "1") "user_1" [] [] 0)
                  eq_refl eq_refl eq_refl eq_refl ltac:(discriminate) eq_refl) "B").
  split; [|done]. apply membersOf_rooms_AB. auto.
Defined.

End TypingFacts.

(** ** The application's handlers *)
Section AppFacts.

Lemma filter_all {A : Type} (P : A -> Prop) `{!forall x, Decision (P x)} (l : list A) :
  Forall P l -> filter P l = l.
Proof.
  induction 1 as [|x l Hx Hl IH]; [done|].
  rewrite filter_cons_True by done. by rewrite IH.
Qed.

Lemma delete_found_is_filter {A : Type} (P : A -> Prop) `{!forall x, Decision (P x)}
    (l : list A) (i : nat) (x : A) :
  list_find P l = Some (i, x) ->
  (forall j y, l !! j = Some y -> P y -> j = i) ->
  delete i l = filter (λ y, ~ P y) l.
Proof.
  revert i. induction l as [|a l IH]; intros i; [done|].
  simpl. case_decide as Ha.
  - intros [= <- <-] Huniq. simpl.
    rewrite filter_cons_False by naive_solver.
    symmetry. apply filter_all. (* no other element satisfies [P] *)
    apply Forall_forall. intros y Hy HP.
    apply list_elem_of_lookup in Hy as [j Hj].
    by specialize (Huniq (S j) y Hj HP).
  - destruct (list_find P l) as [[i' x']|] eqn:Hfind; [|done].
    simpl. intros [= <- <-] Huniq.
    rewrite filter_cons_True by done. simpl. f_equal.
    apply IH; [done|]. intros j y Hj HP.
    specialize (Huniq (S j) y Hj HP). lia.
Qed.

Lemma has_id_eq (cardId : jsval) (card : obj) :
  has_id cardId card -> get card "id" = cardId.
Proof. apply strict_eq_true. Qed.

Lemma has_id_unique (cardId : jsval) (b : board) (i j : nat) (x y : obj) :
  NoDup (card_ids b) ->
  cards b !! i = Some x -> cards b !! j = Some y ->
  has_id cardId x -> has_id cardId y -> i = j.
Proof.
  intros Hnd Hi Hj Hx%has_id_eq Hy%has_id_eq.
  apply (NoDup_lookup (card_ids b) i j cardId Hnd);
    unfold card_ids; rewrite list_lookup_fmap.
  - by rewrite Hi; simpl; rewrite Hx.
  - by rewrite Hj; simpl; rewrite Hy.
Qed.

(** X21: a [card-created] event for the active board is appended to its
    cards without a look at the cards that are there: handled twice, the
    card is on the board twice.  For another board, or with no active board,
    nothing happens. *)
Theorem remote_card_created_is_appended (cardData : obj) (a : app_state) (b : board) :
  activeBoard a = Some b ->
  (strict_eq (get cardData "board_id") (board_id b) = true ->
   handleRemoteCardCreated cardData a =
     (MkApp (Some (Board (board_id b) (cards b ++ [cardData]))) (selectedCards a),
      [QueueRender; ShowStatus "New card added by collaborator" "info"]) /\
   (handleRemoteCardCreated cardData (handleRemoteCardCreated cardData a).1).1 =
     MkApp (Some (Board (board_id b) (cards b ++ [cardData; cardData]))) (selectedCards a)) /\
  (strict_eq (get cardData "board_id") (board_id b) = false ->
   handleRemoteCardCreated cardData a = (a, [])).
Proof.
  intros Hb. unfold handleRemoteCardCreated. rewrite Hb. split.
  - intros Heq. rewrite Heq. simpl. rewrite Heq. simpl.
    by rewrite <- app_assoc.
  - by intros ->.
Qed.

Lemma remote_card_created_is_appended_witness :
  activeBoard (handleRemoteCardCreated card_on_board_1 (MkApp (Some board_1) [])).1
  = Some (Board (VStr "1") [card_on_board_1; card_on_board_1]).
Proof.
  rewrite (proj1 (proj1 (remote_card_created_is_appended card_on_board_1
                           (MkApp (Some board_1) []) board_1 eq_refl) eq_refl)).
  reflexivity.
Defined.

(** X22: on a board whose card ids are distinct, a [card-deleted] event
    leaves exactly the cards with another id, in their order; when a card
    was removed its id leaves the selection, and when no card has the id
    nothing changes and nothing is rendered. *)
Theorem remote_card_deleted_removes_the_card (cardId : jsval) (a : app_state) (b : board) :
  activeBoard a = Some b -> NoDup (card_ids b) ->
  activeBoard (handleRemoteCardDeleted cardId a).1
    = Some (Board (board_id b) (filter (λ c, ~ has_id cardId c) (cards b))) /\
  ((exists c, c ∈ cards b /\ has_id cardId c) ->
   cardId ∉ selectedCards (handleRemoteCardDeleted cardId a).1) /\
  ((forall c, c ∈ cards b -> ~ has_id cardId c) ->
   handleRemoteCardDeleted cardId a = (a, [])).
Proof.
  intros Hb Hnd. unfold handleRemoteCardDeleted. rewrite Hb.
  destruct (list_find (has_id cardId) (cards b)) as [[i x]|] eqn:Hfind.
  - pose proof Hfind as (Hi & Hx & _)%list_find_Some.
    simpl. split; [|split].
    + do 2 f_equal. apply (delete_found_is_filter _ _ _ _ Hfind).
      intros j y Hj Hy. by eapply has_id_unique.
    + intros _. rewrite elem_of_map_delete. naive_solver.
    + intros Hnone. destruct (Hnone x); [|done]. by eapply list_elem_of_lookup_2.
  - apply list_find_None in Hfind. simpl. split; [|split].
    + rewrite Hb. destruct b as [bid cs]. simpl in *. do 2 f_equal.
      symmetry. by apply filter_all.
    + intros (c & Hc & HP). rewrite Forall_forall in Hfind. by destruct (Hfind c Hc).
    + done.
Qed.

Lemma remote_card_deleted_removes_the_card_witness :
  activeBoard (handleRemoteCardDeleted (VStr "c1") (MkApp (Some board_1) [VStr "c1"])).1
  = Some (Board (VStr "1") (filter (λ c, ~ has_id (VStr "c1") c) [card_on_board_1])).
Proof.
  apply (proj1 (remote_card_deleted_removes_the_card (VStr "c1")
                  (MkApp (Some board_1) [VStr "c1"]) board_1 eq_refl
                  ltac:(apply NoDup_singleton))).
Defined.

(** X23: a [card-updated] event that carries the manager's own [userId]
    changes nothing.  Any other one, on a board whose card ids are distinct,
    writes every field of the event, its [userId] included, into the card
    with the event's id, keeps the card's other fields and leaves the other
    cards as they are. *)
Theorem remote_card_updated_merges
    (currentUser : string) (updateData : obj) (a : app_state) (b : board)
    (i : nat) (card : obj) :
  (strict_eq (get updateData "userId") (VStr currentUser) = true ->
   handleRemoteCardUpdated currentUser updateData a = (a, [])) /\
  (strict_eq (get updateData "userId") (VStr currentUser) = false ->
   activeBoard a = Some b -> NoDup (card_ids b) ->
   cards b !! i = Some card -> has_id (get updateData "id") card ->
   exists card',
     handleRemoteCardUpdated currentUser updateData a =
       (MkApp (Some (Board (board_id b) (<[i := card']> (cards b)))) (selectedCards a),
        [QueueRender]) /\
     (forall k v, updateData !! k = Some v -> card' !! k = Some v) /\
     (forall k, updateData !! k = None -> card' !! k = card !! k)).
Proof.
  unfold handleRemoteCardUpdated. split; [by intros ->|].
  intros -> Hb Hnd Hi Hid. rewrite Hb.
  assert (list_find (has_id (get updateData "id")) (cards b) = Some (i, card)) as ->.
  { apply list_find_Some. split; [done|]. split; [done|].
    intros j y Hj Hlt Hy.
    assert (j = i) by (by eapply has_id_unique). lia. }
  exists (updateData ∪ card). split; [done|]. split.
  - intros k v Hk. by apply lookup_union_Some_l.
  - intros k Hk. by apply lookup_union_r.
Qed.

Lemma remote_card_updated_merges_witness :
  handleRemoteCardUpdated "user_2" rename_c1 (MkApp (Some board_1) [])
  = (MkApp (Some board_1) [], []) /\
  exists card',
    handleRemoteCardUpdated "user_1" retitled_c1 (MkApp (Some board_1) []) =
      (MkApp (Some (Board (VStr "1") (<[0%nat := card']> [card_on_board_1]))) [],
       [QueueRender]) /\
    (forall k v, retitled_c1 !! k = Some v -> card' !! k = Some v) /\
    (forall k, retitled_c1 !! k = None -> card' !! k = card_on_board_1 !! k).
Proof.
  split.
  - apply (proj1 (remote_card_updated_merges "user_2" rename_c1
                    (MkApp (Some board_1) []) board_1 0 card_on_board_1)).
    reflexivity.
  - apply (proj2 (remote_card_updated_merges "user_1" retitled_c1
                    (MkApp (Some board_1) []) board_1 0 card_on_board_1)).
    + reflexivity.
    + reflexivity.
    + apply NoDup_singleton.
    + reflexivity.
    + reflexivity.
Defined.

End AppFacts.

(** ** The payload of [card-updated] *)

(** X24: the [card-updated] event of the REST handler carries every field
    of the request body as it came; its [id] is the one of the URL unless
    the body has an [id] of its own, which then wins. *)
Theorem card_updated_carries_the_body
    (cardId : string) (updates : obj) (board_id : jsval) (rs : rooms) (d : delivery) :
  d ∈ on_api_event (CardUpdated cardId updates (Some board_id)) rs ->
  event d = "card-updated" /\
  exists o, data d = PObj o /\
    (forall k v, updates !! k = Some v -> o !! k = Some v) /\
    (forall k, k <> "id" -> o !! k = updates !! k) /\
    (updates !! "id" = None -> o !! "id" = Some (VStr cardId)).
Proof.
  simpl. unfold io_to_emit. intros (c & -> & _)%list_elem_of_fmap. simpl.
  split; [done|]. eexists. split; [done|]. split; [|split].
  - intros k v Hk. by apply lookup_union_Some_l.
  - intros k Hk. apply lookup_union_l. by apply lookup_singleton_ne.
  - intros Hid. rewrite lookup_union_r by done. apply lookup_singleton_eq.
Qed.

Lemma card_updated_carries_the_body_witness :
  (event (Deliver "A" "card-updated" (PObj (retitle ∪ {["id" := VStr "c1"]})))
   = "card-updated" /\
   exists o, PObj (retitle ∪ {["id" := VStr "c1"]}) = PObj o /\
     (forall k v, retitle !! k = Some v -> o !! k = Some v) /\
     (forall k, k <> "id" -> o !! k = retitle !! k) /\
     (retitle !! "id" = None -> o !! "id" = Some (VStr "c1"))) /\
  (event (Deliver "B" "card-updated" (PObj (retitle_as_c2 ∪ {["id" := VStr "c1"]})))
   = "card-updated" /\
   exists o, PObj (retitle_as_c2 ∪ {["id" := VStr "c1"]}) = PObj o /\
     (forall k v, retitle_as_c2 !! k = Some v -> o !! k = Some v) /\
     (forall k, k <> "id" -> o !! k = retitle_as_c2 !! k) /\
     (retitle_as_c2 !! "id" = None -> o !! "id" = Some (VStr "c1"))).
Proof.
  split.
  - apply (card_updated_carries_the_body "c1" retitle (VStr "1") rooms_AB
             (Deliver "A" "card-updated" (PObj (retitle ∪ {["id" := VStr "c1"]})))).
    simpl. unfold io_to_emit. apply list_elem_of_fmap.
    exists "A". split; [done|]. apply elem_of_elements, membersOf_rooms_AB. auto.
  - apply (card_updated_carries_the_body "c1" retitle_as_c2 (VStr "1") rooms_AB
             (Deliver "B" "card-updated" (PObj (retitle_as_c2 ∪ {["id" := VStr "c1"]})))).
    simpl. unfold io_to_emit. apply list_elem_of_fmap.
    exists "B". split; [done|]. apply elem_of_elements, membersOf_rooms_AB. auto.
Defined.

(** ** Board ids that count as no board *)

Lemma to_inputs_join (sid : string) (b : jsval) :
  to_inputs sid
    (on_the_wire <$> [SocketEmit "join-board" (PVal b); LocalEmit "board-joined" [PVal b]])
  = [OfSocket sid (JoinBoard (json_value b))].
Proof. reflexivity. Qed.

(** X25: [joinBoard] with a falsy board id (0, the empty string, [false],
    [null], [undefined], [NaN]) joins the room of that id as it arrives at
    the relay, but the manager then holds no board: the next [joinBoard]
    sends no [leave-board], and the socket is in both rooms. *)
Theorem falsy_board_is_never_left (sid : string) (b0 b : jsval) (st : client) :
  socket st = true -> connected st = true ->
  truthy (currentBoard st) = false ->
  truthy b0 = false ->
  let st1 := state_after (joinBoard b0) st in
  let rs1 := (relay_sent sid (effects_of (joinBoard b0) st) ∅).1 in
  let rs2 := (relay_sent sid (effects_of (joinBoard b) st1) rs1).1 in
  effects_of (joinBoard b) st1
    = [SocketEmit "join-board" (PVal b); LocalEmit "board-joined" [PVal b]] /\
  sid ∈ membersOf rs2 (board_room (json_value b0)) /\
  sid ∈ membersOf rs2 (board_room (json_value b)).
Proof.
  intros Hso Hco Hcb Hb0.
  unfold relay_sent, state_after, effects_of. cbn [fst snd].
  rewrite (joinBoard_when_connected st b0 Hso Hco), Hcb. cbn [andb fst snd].
  rewrite joinBoard_when_connected by (by destruct st).
  assert (currentBoard (set_currentBoard b0 st) = b0) as -> by done.
  rewrite Hb0. cbn [andb fst snd].
  rewrite !to_inputs_join, !relay_run_single. cbn [on_socket_event fst].
  split; [done|].
  rewrite !elem_of_membersOf_join. auto.
Qed.

Lemma falsy_board_is_never_left_witness :
  "A" ∈ membersOf
          (relay_sent "A"
             (effects_of (joinBoard (VStr "2")) (state_after (joinBoard (VNum 0)) idle_client))
             (relay_sent "A" (effects_of (joinBoard (VNum 0)) idle_client) ∅).1).1
          "board-0" /\
  "A" ∈ membersOf
          (relay_sent "A"
             (effects_of (joinBoard (VStr "2")) (state_after (joinBoard (VNum 0)) idle_client))
             (relay_sent "A" (effects_of (joinBoard (VNum 0)) idle_client) ∅).1).1
          "board-2".
Proof.
  apply (proj2 (falsy_board_is_never_left "A" (VNum 0) (VStr "2") idle_client
                  eq_refl eq_refl eq_refl eq_refl)).
Defined.
